(** * useApiWithInterval: a polling hook with cancellation

    A shallow embedding of [src/useApiWithInterval.ts].  The hook keeps three
    React state cells ([data], [loading], [error]) and two refs
    ([intervalRef], [abortControllerRef]); it talks to three platform
    services: [AbortController], the interval timers and the caller's
    [apiCall].  The embedding threads a [World] (cells, refs and the
    platform's tables) through a small state monad that also records, in
    order, every call the hook makes to the outside.

    [fetchData] is an async function: it runs up to its [await] when it is
    called ([fetchData_call]) and resumes when the promise returned by
    [apiCall] settles ([fetchData_resume]); in between, anything else may
    happen.  The options are taken not to change between renders, so the
    effect runs once, and [apiCall] is taken to return a promise rather than
    to throw.  The cells hold the last value passed to their setter. *)

From Stdlib Require Import NArith String Lia.
From stdpp Require Import base list.

Local Open Scope N_scope.

(** ** Values *)

(** An [AbortController] is named by its allocation index. *)
Definition Token := nat.

(** The handle [setInterval] returns ([NodeJS.Timeout]): an object, hence
    always truthy in [if (intervalRef.current)]. *)
Definition Handle := nat.

(** An instance of the JavaScript [Error] class. *)
Record JsError := mkError { name : string; message : string }.

(** What a rejected promise carries: an [Error] instance, or any other
    value (here the raw string of [mockRejectedValue("String error")]). *)
Inductive Thrown :=
| ThrownError (e : JsError)
| ThrownOther (raw : string).

(** [err instanceof Error && err.name !== "AbortError"] (line 49). *)
Definition reportable (err : Thrown) : option JsError :=
  match err with
  | ThrownError e => if String.eqb (name e) "AbortError" then None else Some e
  | ThrownOther _ => None
  end.

(** A repeating timer of the platform; its callback is always [fetchData]. *)
Record Timer := mkTimer { due : N; period : N }.

(** Node's timers ([lib/internal/timers.js]; the handle is a
    [NodeJS.Timeout]): a delay below 1 or above [TIMEOUT_MAX], which is
    2^31 - 1, is set to 1. *)
Definition TIMEOUT_MAX : N := 2147483647.

Definition timer_delay (ms : N) : N :=
  if N.ltb ms 1 || N.ltb TIMEOUT_MAX ms then 1 else ms.

(** How often a repeating timer has run once [d] milliseconds have passed
    since [now], and the calls it has made by then: one each time it was
    due, each with a controller of its own, numbered from [first]. *)
Definition fire_count (t : Timer) (now d : N) : nat :=
  if N.ltb (now + d) (due t) then 0%nat
  else S (N.to_nat ((now + d - due t) / period t)).

Definition fire_log (t : Timer) (first : Token) (n : nat) : list (N * Token) :=
  map (fun i => (due t + N.of_nat i * period t, (first + i)%nat)) (seq 0 n).

(** ** The demonstration component, [src/ApiComponent.tsx] *)

Module ApiComponent.

(** [error.message], line 67. *)
Definition error_text (e : JsError) : string := message e.

(** What [fetchData] resolves with, lines 13-16. *)
Record Payload := mkPayload { message : string; timestamp : N }.

(** How [response.json()] settles: a rejection, or the parsed post, of
    which only [title] is read.  The post is taken to carry a string
    [title], as the function's return type states. *)
Inductive Body :=
| BodyRejected (err : Thrown)
| BodyJson (title : string).

(** How [fetch] settles: a rejection, or a response with its [ok] flag and
    its body. *)
Inductive Fetched :=
| FetchRejected (err : Thrown)
| Response (ok : bool) (body : Body).

(** [fetchData], lines 5-17: the value the async function returns, or what
    it throws.  [now] is [Date.now()] at line 15. *)
Definition fetchData (now : N) (f : Fetched) : Thrown + Payload :=
  match f with
  | FetchRejected err => inl err
  | Response ok body =>
      if negb ok
      then inl (ThrownError (mkError "Error" "Failed to fetch data"))
      else
        match body with
        | BodyRejected err => inl err
        | BodyJson title => inr (mkPayload title now)
        end
  end.

(** What the component renders, lines 26-96, without the styling: the
    button, the loading line, the error panel with its message and the data
    panel with its message and the time stamp it formats. *)
Record View := mkView {
  button_disabled : bool;
  button_label : string;
  loading_line : bool;
  error_panel : option string;
  data_panel : option (string * N)
}.

Definition render (data : option Payload) (loading : bool)
    (error : option JsError) : View :=
  mkView loading
         (if loading then "Loading..." else "Refetch Now")
         loading
         (option_map error_text error)
         (option_map (fun d => (message d, timestamp d)) data).

End ApiComponent.

Section Hook.

(** The hook's type parameter and its options (lines 16-20). *)
Variable T : Type.
Variable interval : N.
Variable immediate : bool.

(** How the promise returned by [apiCall] settles. *)
Inductive Outcome :=
| Resolved (result : T)
| Rejected (err : Thrown).

(** Calls the hook makes to React and to the platform. *)
Inductive Effect :=
| EAbort (c : Token)
| ENewAbortController (c : Token)
| ESetLoading (b : bool)
| ESetError (e : option JsError)
| ESetData (d : option T)
| EApiCall (c : Token)
| EClearInterval (h : Handle)
| ESetInterval (h : Handle) (ms : N).

Record World := mkWorld {
  (* useState cells, lines 21-23 *)
  data : option T;
  loading : bool;
  error : option JsError;
  (* useRef cells, lines 25-26 *)
  intervalRef : option Handle;
  abortControllerRef : option Token;
  (* platform: [signal.aborted] of every AbortController created so far *)
  controllers : list bool;
  (* platform: armed interval timers, in arming order *)
  timers : list (Handle * Timer);
  nextHandle : Handle;
  (* platform: milliseconds elapsed *)
  clock : N;
  (* promises returned by [apiCall] that have not settled yet *)
  pending : list Token;
  (* every invocation of [apiCall]: when, and with which signal *)
  calls : list (N * Token)
}.

(** The state right after the first render: initial [useState] and
    [useRef] values, nothing allocated, time zero. *)
Definition init : World :=
  mkWorld None false None None None [] [] 0%nat 0 [] [].

(** ** Field updates *)

Definition with_data (d : option T) (w : World) : World :=
  mkWorld d (loading w) (error w) (intervalRef w) (abortControllerRef w)
          (controllers w) (timers w) (nextHandle w) (clock w) (pending w) (calls w).

Definition with_loading (b : bool) (w : World) : World :=
  mkWorld (data w) b (error w) (intervalRef w) (abortControllerRef w)
          (controllers w) (timers w) (nextHandle w) (clock w) (pending w) (calls w).

Definition with_error (e : option JsError) (w : World) : World :=
  mkWorld (data w) (loading w) e (intervalRef w) (abortControllerRef w)
          (controllers w) (timers w) (nextHandle w) (clock w) (pending w) (calls w).

Definition with_intervalRef (r : option Handle) (w : World) : World :=
  mkWorld (data w) (loading w) (error w) r (abortControllerRef w)
          (controllers w) (timers w) (nextHandle w) (clock w) (pending w) (calls w).

Definition with_abortControllerRef (r : option Token) (w : World) : World :=
  mkWorld (data w) (loading w) (error w) (intervalRef w) r
          (controllers w) (timers w) (nextHandle w) (clock w) (pending w) (calls w).

Definition with_controllers (l : list bool) (w : World) : World :=
  mkWorld (data w) (loading w) (error w) (intervalRef w) (abortControllerRef w)
          l (timers w) (nextHandle w) (clock w) (pending w) (calls w).

Definition with_timers (l : list (Handle * Timer)) (w : World) : World :=
  mkWorld (data w) (loading w) (error w) (intervalRef w) (abortControllerRef w)
          (controllers w) l (nextHandle w) (clock w) (pending w) (calls w).

Definition with_nextHandle (h : Handle) (w : World) : World :=
  mkWorld (data w) (loading w) (error w) (intervalRef w) (abortControllerRef w)
          (controllers w) (timers w) h (clock w) (pending w) (calls w).

Definition with_clock (t : N) (w : World) : World :=
  mkWorld (data w) (loading w) (error w) (intervalRef w) (abortControllerRef w)
          (controllers w) (timers w) (nextHandle w) t (pending w) (calls w).

Definition with_pending (l : list Token) (w : World) : World :=
  mkWorld (data w) (loading w) (error w) (intervalRef w) (abortControllerRef w)
          (controllers w) (timers w) (nextHandle w) (clock w) l (calls w).

Definition with_calls (l : list (N * Token)) (w : World) : World :=
  mkWorld (data w) (loading w) (error w) (intervalRef w) (abortControllerRef w)
          (controllers w) (timers w) (nextHandle w) (clock w) (pending w) l.

(** ** The monad: state passing plus the ordered list of outside calls *)

Definition M (A : Type) : Type := World -> A * World * list Effect.

Definition ret {A} (a : A) : M A := fun w => (a, w, []).

Definition bind {A B} (m : M A) (k : A -> M B) : M B :=
  fun w =>
    let '(a, w1, l1) := m w in
    let '(b, w2, l2) := k a w1 in
    (b, w2, l1 ++ l2).

Notation "x <- m ;; k" := (bind m (fun x => k))
  (at level 100, m at next level, right associativity).
Notation "m ;; k" := (bind m (fun _ => k))
  (at level 100, right associativity).

Definition exec {A} (m : M A) (w : World) : World := snd (fst (m w)).
Definition effects {A} (m : M A) (w : World) : list Effect := snd (m w).

Definition when (b : bool) (m : M unit) : M unit := if b then m else ret tt.

(** ** Primitives *)

Definition read_abortControllerRef : M (option Token) :=
  fun w => (abortControllerRef w, w, []).

Definition write_abortControllerRef (r : option Token) : M unit :=
  fun w => (tt, with_abortControllerRef r w, []).

Definition read_intervalRef : M (option Handle) :=
  fun w => (intervalRef w, w, []).

Definition write_intervalRef (r : option Handle) : M unit :=
  fun w => (tt, with_intervalRef r w, []).

(** [c.abort()]: raises the signal's flag; aborting twice changes nothing. *)
Definition abort (c : Token) : M unit :=
  fun w => (tt, with_controllers (<[c := true]> (controllers w)) w, [EAbort c]).

(** [new AbortController()]: a fresh controller whose signal is not aborted. *)
Definition newAbortController : M Token :=
  fun w =>
    let c := length (controllers w) in
    (c, with_controllers (controllers w ++ [false]) w, [ENewAbortController c]).

Definition setLoading (b : bool) : M unit :=
  fun w => (tt, with_loading b w, [ESetLoading b]).

Definition setError (e : option JsError) : M unit :=
  fun w => (tt, with_error e w, [ESetError e]).

Definition setData (d : option T) : M unit :=
  fun w => (tt, with_data d w, [ESetData d]).

(** [apiCall(signal)]: the call is logged and its promise is outstanding. *)
Definition apiCall (c : Token) : M unit :=
  fun w =>
    (tt,
     with_calls (calls w ++ [(clock w, c)]) (with_pending (pending w ++ [c]) w),
     [EApiCall c]).

(** [clearInterval(h)]: disarms [h]; a handle that is not armed is ignored. *)
Definition clearInterval (h : Handle) : M unit :=
  fun w =>
    (tt,
     with_timers (List.filter (fun ht : Handle * Timer => negb (Nat.eqb (fst ht) h)) (timers w)) w,
     [EClearInterval h]).

(** [setInterval(fetchData, ms)]: with the delay the platform makes of
    [ms], first run one delay from now, then every delay. *)
Definition setInterval (ms : N) : M Handle :=
  fun w =>
    let h := nextHandle w in
    (h,
     with_nextHandle (S h)
       (with_timers
          (timers w ++ [(h, mkTimer (clock w + timer_delay ms) (timer_delay ms))])
          w),
     [ESetInterval h ms]).

(** ** The hook *)

(** [fetchData], lines 28-41: everything up to the [await]. *)
Definition fetchData_call : M unit :=
  prev <- read_abortControllerRef ;;
  match prev with
  | Some c => abort c
  | None => ret tt
  end ;;
  c <- newAbortController ;;
  write_abortControllerRef (Some c) ;;
  setLoading true ;;
  setError None ;;
  cur <- read_abortControllerRef ;;
  match cur with
  | Some c' => apiCall c'
  | None => ret tt
  end.

(** [fetchData], lines 42-55: what runs once the awaited promise settles. *)
Definition fetchData_resume (o : Outcome) : M unit :=
  match o with
  | Resolved result =>
      setData (Some result) ;;
      setError None
  | Rejected err =>
      match reportable err with
      | Some e =>
          setError (Some e) ;;
          setData None
      | None => ret tt
      end
  end ;;
  setLoading false.

(** [startInterval], lines 58-66. *)
Definition startInterval : M unit :=
  cur <- read_intervalRef ;;
  match cur with
  | Some h => clearInterval h
  | None => ret tt
  end ;;
  h <- setInterval interval ;;
  write_intervalRef (Some h).

(** [refetch], lines 68-71. *)
Definition refetch : M unit :=
  fetchData_call ;;
  startInterval.

(** The effect body, lines 73-80. *)
Definition useEffect : M unit :=
  when immediate fetchData_call ;;
  startInterval.

(** The effect's cleanup, lines 82-92. *)
Definition cleanup : M unit :=
  cur <- read_intervalRef ;;
  match cur with
  | Some h => clearInterval h
  | None => ret tt
  end ;;
  ctl <- read_abortControllerRef ;;
  match ctl with
  | Some c => abort c
  | None => ret tt
  end.

(** ** The environment: promises settling, time passing, unmounting *)

(** The promise of request [c] settles with [o] and [fetchData] resumes.
    A promise settles at most once. *)
Definition settle (c : Token) (o : Outcome) (w : World) : World :=
  if existsb (Nat.eqb c) (pending w)
  then exec (fetchData_resume o)
            (with_pending (List.filter (fun c' => negb (Nat.eqb c' c)) (pending w)) w)
  else w.

(** The callback of timer [ht] runs if the timer is due at [now]. *)
Definition run_due (now : N) (w : World) (ht : Handle * Timer) : World :=
  if N.eqb (due (snd ht)) now then exec fetchData_call w else w.

(** A repeating timer that has just run is due again one period later. *)
Definition rearm (now : N) (ht : Handle * Timer) : Handle * Timer :=
  if N.eqb (due (snd ht)) now
  then (fst ht, mkTimer (due (snd ht) + period (snd ht)) (period (snd ht)))
  else ht.

(** One millisecond passes: the timers due at the new instant run, in
    arming order.  The timers [setInterval] arms have a period of at least
    one millisecond. *)
Definition tick_ms (w : World) : World :=
  let now := clock w + 1 in
  let w1 := with_clock now w in
  let w2 := fold_left (run_due now) (timers w1) w1 in
  with_timers (map (rearm now) (timers w2)) w2.

(** [d] milliseconds pass (jest's [advanceTimersByTime]). *)
Definition advance (d : N) (w : World) : World := N.iter d tick_ms w.

(** What can happen to a mounted hook. *)
Inductive Event :=
| Refetch
| Advance (d : N)
| Settle (c : Token) (o : Outcome)
| Unmount.

Definition step (w : World) (e : Event) : World :=
  match e with
  | Refetch => exec refetch w
  | Advance d => advance d w
  | Settle c o => settle c o w
  | Unmount => exec cleanup w
  end.

(** The hook once its effect has run. *)
Definition mount : World := exec useEffect init.

Definition run (evs : list Event) : World := fold_left step evs mount.

(** Events other than a call to [refetch]. *)
Definition not_refetch (e : Event) : bool :=
  match e with
  | Refetch => false
  | _ => true
  end.

(** ** Well-formed worlds *)

(** The controllers whose signal has not been aborted, numbered from
    [base]. *)
Fixpoint live_from (base : Token) (l : list bool) : list Token :=
  match l with
  | [] => []
  | aborted :: rest =>
      if aborted then live_from (S base) rest
      else base :: live_from (S base) rest
  end.

Definition live (w : World) : list Token := live_from 0%nat (controllers w).

(** Every armed timer is the one [intervalRef] holds, and there is at most
    one. *)
Definition timer_slot_ok (w : World) : bool :=
  match timers w with
  | [] => true
  | [(h, _)] =>
      match intervalRef w with
      | Some h' => Nat.eqb h h'
      | None => false
      end
  | _ => false
  end.

(** Every controller whose signal is not aborted is the one
    [abortControllerRef] holds, and there is at most one. *)
Definition token_slot_ok (w : World) : bool :=
  match live w with
  | [] => true
  | [c] =>
      match abortControllerRef w with
      | Some c' => Nat.eqb c c'
      | None => false
      end
  | _ => false
  end.

(** [abortControllerRef] holds a controller that was created. *)
Definition token_ref_ok (w : World) : bool :=
  match abortControllerRef w with
  | Some c => Nat.ltb c (length (controllers w))
  | None => true
  end.

Definition wf (w : World) : bool :=
  timer_slot_ok w && token_slot_ok w && token_ref_ok w.

(** The controller table once the previously active controller, if any,
    has been aborted. *)
Definition abort_active (w : World) : list bool :=
  match abortControllerRef w with
  | Some c => <[c := true]> (controllers w)
  | None => controllers w
  end.

(** The promise of an async function whose body threw or returned. *)
Definition settled (r : Thrown + T) : Outcome :=
  match r with
  | inl err => Rejected err
  | inr result => Resolved result
  end.

(** The button of [ApiComponent.tsx], lines 39-41: disabled while
    [loading], otherwise a click calls [refetch]. *)
Definition click (w : World) : World :=
  if loading w then w else exec refetch w.

(** Events other than a promise settling. *)
Definition not_settle (e : Event) : bool :=
  match e with
  | Settle _ _ => false
  | _ => true
  end.

(** ** The monad's equations *)

Lemma exec_bind {A B} (m : M A) (k : A -> M B) (w : World) :
  exec (bind m k) w = exec (k (fst (fst (m w)))) (exec m w).
Proof.
  unfold exec, bind. destruct (m w) as [[a w1] l1]. cbn [fst snd].
  destruct (k a w1) as [[b w2] l2]. reflexivity.
Qed.

Lemma effects_bind {A B} (m : M A) (k : A -> M B) (w : World) :
  effects (bind m k) w =
  effects m w ++ effects (k (fst (fst (m w)))) (exec m w).
Proof.
  unfold effects, exec, bind. destruct (m w) as [[a w1] l1]. cbn [fst snd].
  destruct (k a w1) as [[b w2] l2]. reflexivity.
Qed.

Lemma refetch_exec (w : World) :
  exec refetch w = exec startInterval (exec fetchData_call w).
Proof. unfold refetch. apply exec_bind. Qed.

(** ** Facts about the controller table *)

Lemma live_from_spec (l : list bool) (base x : Token) :
  x ∈ live_from base l <->
  exists i, x = (base + i)%nat /\ l !! i = Some false.
Proof.
  revert base; induction l as [|b l IH]; intros base; simpl.
  - split; [intros H; inversion H | intros (i & _ & H); discriminate].
  - destruct b.
    + rewrite IH; split.
      * intros (i & -> & Hi); exists (S i); split; [lia | exact Hi].
      * intros ([|i] & -> & Hi); [discriminate|].
        exists i; split; [lia | exact Hi].
    + rewrite elem_of_cons, IH; split.
      * intros [-> | (i & -> & Hi)].
        -- exists 0%nat; split; [lia | reflexivity].
        -- exists (S i); split; [lia | exact Hi].
      * intros ([|i] & -> & Hi).
        -- left; lia.
        -- right; exists i; split; [lia | exact Hi].
Qed.

Lemma live_from_app (l1 l2 : list bool) (base : Token) :
  live_from base (l1 ++ l2) =
  live_from base l1 ++ live_from (base + length l1)%nat l2.
Proof.
  revert base; induction l1 as [|b l1 IH]; intros base; simpl.
  - f_equal; lia.
  - rewrite IH. replace (S base + length l1)%nat with (base + S (length l1))%nat by lia.
    destruct b; reflexivity.
Qed.

Lemma elem_of_nil_eq {A} (l : list A) : (forall x, x ∉ l) -> l = [].
Proof.
  destruct l as [|a l]; [reflexivity|].
  intros H; exfalso; apply (H a); left.
Qed.

(** Aborting the only controller that is still live leaves none. *)
Lemma live_from_abort (l : list bool) (c : Token) :
  (forall x, x ∈ live_from 0%nat l -> x = c) ->
  live_from 0%nat (<[c := true]> l) = [].
Proof.
  intros Hall. apply elem_of_nil_eq; intros x Hx.
  apply live_from_spec in Hx as (i & -> & Hi). simpl in *.
  destruct (decide (i = c)) as [-> | Hne].
  - destruct (decide (c < length l)%nat) as [Hlt | Hge].
    + rewrite list_lookup_insert_eq in Hi by exact Hlt. discriminate.
    + rewrite list_insert_ge in Hi by lia.
      apply lookup_lt_Some in Hi. lia.
  - rewrite list_lookup_insert_ne in Hi by congruence.
    apply Hne, Hall, live_from_spec. exists i; split; [reflexivity | exact Hi].
Qed.

(** ** What each operation computes *)

Lemma abort_active_length (w : World) :
  length (abort_active w) = length (controllers w).
Proof.
  unfold abort_active; destruct (abortControllerRef w); [apply length_insert | reflexivity].
Qed.

Lemma fetchData_call_exec (w : World) :
  exec fetchData_call w =
  mkWorld (data w) true None (intervalRef w) (Some (length (controllers w)))
          (abort_active w ++ [false]) (timers w) (nextHandle w) (clock w)
          (pending w ++ [length (controllers w)])
          (calls w ++ [(clock w, length (controllers w))]).
Proof.
  unfold abort_active, exec, fetchData_call, bind, read_abortControllerRef.
  destruct (abortControllerRef w) as [c|]; simpl.
  - rewrite length_insert. reflexivity.
  - reflexivity.
Qed.

Lemma fetchData_call_effects (w : World) :
  effects fetchData_call w =
  match abortControllerRef w with
  | Some c => [EAbort c]
  | None => []
  end ++
  [ENewAbortController (length (controllers w)); ESetLoading true;
   ESetError None; EApiCall (length (controllers w))].
Proof.
  unfold effects, fetchData_call, bind, read_abortControllerRef.
  destruct (abortControllerRef w) as [c|]; simpl.
  - rewrite length_insert. reflexivity.
  - reflexivity.
Qed.

Lemma fetchData_resume_exec (o : Outcome) (w : World) :
  exec (fetchData_resume o) w =
  match o with
  | Resolved result => with_loading false (with_error None (with_data (Some result) w))
  | Rejected err =>
      match reportable err with
      | Some e => with_loading false (with_data None (with_error (Some e) w))
      | None => with_loading false w
      end
  end.
Proof.
  destruct o as [result | err]; [reflexivity|].
  unfold exec, fetchData_resume, bind. destruct (reportable err); reflexivity.
Qed.

Lemma timer_slot_filter (w : World) (h : Handle) :
  timer_slot_ok w = true -> intervalRef w = Some h ->
  List.filter (fun ht : Handle * Timer => negb (Nat.eqb (fst ht) h)) (timers w) = [].
Proof.
  unfold timer_slot_ok. intros Hok Href. rewrite Href in Hok.
  destruct (timers w) as [|[h0 t0] [|? ?]]; try discriminate; [reflexivity|].
  apply Nat.eqb_eq in Hok; subst h0.
  cbn. rewrite Nat.eqb_refl. reflexivity.
Qed.

Lemma timer_slot_none (w : World) :
  timer_slot_ok w = true -> intervalRef w = None -> timers w = [].
Proof.
  unfold timer_slot_ok. intros Hok Href. rewrite Href in Hok.
  destruct (timers w) as [|[h0 t0] [|? ?]]; try discriminate; reflexivity.
Qed.

Lemma startInterval_exec (w : World) :
  timer_slot_ok w = true ->
  exec startInterval w =
  mkWorld (data w) (loading w) (error w) (Some (nextHandle w))
          (abortControllerRef w) (controllers w)
          [(nextHandle w,
            mkTimer (clock w + timer_delay interval) (timer_delay interval))]
          (S (nextHandle w)) (clock w) (pending w) (calls w).
Proof.
  intros Hok.
  unfold exec, startInterval, bind, read_intervalRef, clearInterval, setInterval.
  destruct (intervalRef w) as [h|] eqn:Href; cbv beta iota zeta.
  - rewrite (timer_slot_filter w h Hok Href). reflexivity.
  - unfold ret; cbv beta iota zeta. rewrite (timer_slot_none w Hok Href). reflexivity.
Qed.

Lemma startInterval_effects (w : World) :
  effects startInterval w =
  match intervalRef w with
  | Some h => [EClearInterval h]
  | None => []
  end ++ [ESetInterval (nextHandle w) interval].
Proof.
  unfold effects, startInterval, bind, read_intervalRef.
  destruct (intervalRef w) as [h|]; reflexivity.
Qed.

Lemma cleanup_exec (w : World) :
  timer_slot_ok w = true ->
  exec cleanup w =
  mkWorld (data w) (loading w) (error w) (intervalRef w)
          (abortControllerRef w) (abort_active w) []
          (nextHandle w) (clock w) (pending w) (calls w).
Proof.
  intros Hok. destruct w as [d l e ir ar cs ts nh ck pd cl].
  unfold timer_slot_ok in Hok; simpl in Hok.
  destruct ts as [|[h0 t0] [|? ?]]; try discriminate;
    destruct ir as [h|]; try discriminate;
    destruct ar as [c|];
    unfold abort_active, exec, cleanup, bind; simpl;
    rewrite ?Hok; reflexivity.
Qed.

Lemma settle_exec (c : Token) (o : Outcome) (w : World) :
  c ∈ pending w ->
  settle c o w =
  exec (fetchData_resume o)
       (with_pending (List.filter (fun c' => negb (Nat.eqb c' c)) (pending w)) w).
Proof.
  intros Hin. unfold settle.
  replace (existsb (Nat.eqb c) (pending w)) with true; [reflexivity|].
  symmetry. apply existsb_exists. exists c. split.
  - apply list_elem_of_In, Hin.
  - apply Nat.eqb_refl.
Qed.

(** One millisecond, when at most one timer is armed. *)
Lemma tick_ms_cases (w : World) :
  timer_slot_ok w = true ->
  tick_ms w =
  match timers w with
  | [(h, t)] =>
      if N.eqb (due t) (clock w + 1)
      then with_timers [(h, mkTimer (due t + period t) (period t))]
             (exec fetchData_call (with_clock (clock w + 1) w))
      else with_clock (clock w + 1) w
  | _ => with_clock (clock w + 1) w
  end.
Proof.
  intros Hok. unfold timer_slot_ok in Hok.
  unfold tick_ms. cbv zeta.
  replace (timers (with_clock (clock w + 1) w)) with (timers w) by reflexivity.
  destruct (timers w) as [|[h t] [|? ?]] eqn:Hts; try discriminate.
  - cbn [fold_left map]. destruct w; cbn in *; subst; reflexivity.
  - cbn [fold_left map]. unfold run_due, rearm. cbn [fst snd].
    destruct (N.eqb (due t) (clock w + 1)) eqn:Hdue.
    + rewrite fetchData_call_exec. cbn [timers with_clock]. rewrite Hts.
      cbn [map fst snd]. rewrite Hdue. reflexivity.
    + cbn [timers with_clock]. rewrite Hts. cbn [map fst snd]. rewrite Hdue.
      destruct w; cbn in *; subst; reflexivity.
Qed.

(** ** Well-formedness is preserved *)

Lemma wf_split (w : World) :
  wf w = true <->
  timer_slot_ok w = true /\ token_slot_ok w = true /\ token_ref_ok w = true.
Proof.
  unfold wf. rewrite !andb_true_iff. tauto.
Qed.

Lemma live_abort_active (w : World) :
  token_slot_ok w = true -> live_from 0%nat (abort_active w) = [].
Proof.
  unfold token_slot_ok, live, abort_active. intros Hok.
  destruct (abortControllerRef w) as [c|].
  - apply live_from_abort. intros x Hx.
    destruct (live_from 0%nat (controllers w)) as [|c0 [|? ?]]; try discriminate.
    + inversion Hx.
    + apply Nat.eqb_eq in Hok; subst c0.
      apply list_elem_of_singleton in Hx. exact Hx.
  - destruct (live_from 0%nat (controllers w)) as [|c0 [|? ?]];
      [reflexivity | discriminate | discriminate].
Qed.

Lemma live_fetchData_call (w : World) :
  token_slot_ok w = true ->
  live (exec fetchData_call w) = [length (controllers w)].
Proof.
  intros Hok. rewrite fetchData_call_exec. unfold live; cbn [controllers].
  rewrite live_from_app, (live_abort_active w Hok), abort_active_length.
  reflexivity.
Qed.

Lemma wf_fetchData_call (w : World) :
  wf w = true -> wf (exec fetchData_call w) = true.
Proof.
  rewrite !wf_split. intros (Ht & Hs & Hr). repeat split.
  - rewrite fetchData_call_exec. exact Ht.
  - unfold token_slot_ok. rewrite (live_fetchData_call w Hs).
    rewrite fetchData_call_exec. cbn [abortControllerRef]. apply Nat.eqb_refl.
  - rewrite fetchData_call_exec. unfold token_ref_ok.
    cbn [abortControllerRef controllers].
    rewrite length_app, abort_active_length. apply Nat.ltb_lt. simpl. lia.
Qed.

Lemma wf_startInterval (w : World) :
  wf w = true -> wf (exec startInterval w) = true.
Proof.
  rewrite !wf_split. intros (Ht & Hs & Hr).
  rewrite (startInterval_exec w Ht). repeat split.
  - unfold timer_slot_ok. cbn [timers intervalRef]. apply Nat.eqb_refl.
  - exact Hs.
  - exact Hr.
Qed.

Lemma wf_refetch (w : World) : wf w = true -> wf (exec refetch w) = true.
Proof.
  intros Hwf.
  rewrite refetch_exec.
  apply wf_startInterval, wf_fetchData_call, Hwf.
Qed.

Lemma wf_cleanup (w : World) : wf w = true -> wf (exec cleanup w) = true.
Proof.
  rewrite !wf_split. intros (Ht & Hs & Hr).
  rewrite (cleanup_exec w Ht). repeat split.
  - unfold token_slot_ok, live. cbn [controllers].
    rewrite (live_abort_active w Hs). reflexivity.
  - unfold token_ref_ok in *. cbn [abortControllerRef controllers].
    rewrite abort_active_length. exact Hr.
Qed.

Lemma wf_settle (c : Token) (o : Outcome) (w : World) :
  wf w = true -> wf (settle c o w) = true.
Proof.
  intros Hwf. unfold settle.
  destruct (existsb (Nat.eqb c) (pending w)); [|exact Hwf].
  rewrite fetchData_resume_exec.
  destruct o as [r | err]; [exact Hwf|].
  destruct (reportable err); exact Hwf.
Qed.

Lemma wf_rearmed (w : World) (h : Handle) (t t' : Timer) :
  wf w = true -> timers w = [(h, t)] -> wf (with_timers [(h, t')] w) = true.
Proof.
  rewrite !wf_split. intros (Ht & Hs & Hr) Hts. repeat split.
  - unfold timer_slot_ok in *. rewrite Hts in Ht. exact Ht.
  - exact Hs.
  - exact Hr.
Qed.

Lemma wf_tick_ms (w : World) : wf w = true -> wf (tick_ms w) = true.
Proof.
  intros Hwf. pose proof (proj1 (wf_split w) Hwf) as (Ht & _).
  rewrite (tick_ms_cases w Ht).
  destruct (timers w) as [|[h t] [|? ?]] eqn:Hts; try exact Hwf.
  destruct (N.eqb (due t) (clock w + 1)); [|exact Hwf].
  apply wf_rearmed with (t := t).
  - apply wf_fetchData_call. exact Hwf.
  - rewrite fetchData_call_exec. exact Hts.
Qed.

Lemma advance_succ (d : N) (w : World) :
  advance (N.succ d) w = tick_ms (advance d w).
Proof. unfold advance. apply N.iter_succ. Qed.

Lemma wf_advance (d : N) (w : World) : wf w = true -> wf (advance d w) = true.
Proof.
  intros Hwf. induction d as [|d IH] using N.peano_ind.
  - exact Hwf.
  - rewrite advance_succ. apply wf_tick_ms, IH.
Qed.

Lemma wf_step (w : World) (e : Event) : wf w = true -> wf (step w e) = true.
Proof.
  destruct e as [|d|c o|]; cbn [step].
  - apply wf_refetch.
  - apply wf_advance.
  - apply wf_settle.
  - apply wf_cleanup.
Qed.

Lemma wf_mount : wf mount = true.
Proof.
  unfold mount, useEffect. rewrite exec_bind. apply wf_startInterval.
  destruct immediate; cbn [when].
  - apply wf_fetchData_call. reflexivity.
  - reflexivity.
Qed.

Lemma wf_steps (evs : list Event) (w : World) :
  wf w = true -> wf (fold_left step evs w) = true.
Proof.
  revert w; induction evs as [|e evs IH]; intros w Hwf; cbn [fold_left].
  - exact Hwf.
  - apply IH, wf_step, Hwf.
Qed.

(** Every state the hook can reach is well formed. *)
Lemma wf_run (evs : list Event) : wf (run evs) = true.
Proof. apply wf_steps, wf_mount. Qed.

(** ** Time passing *)

Lemma with_clock_id (w : World) : with_clock (clock w + 0) w = w.
Proof. destruct w; unfold with_clock; cbn. rewrite N.add_0_r. reflexivity. Qed.

(** Nothing happens while no armed timer becomes due. *)
Lemma advance_idle (d : N) (w : World) :
  timer_slot_ok w = true ->
  (forall h t, timers w = [(h, t)] -> clock w + d < due t) ->
  advance d w = with_clock (clock w + d) w.
Proof.
  intros Hok. induction d as [|d IH] using N.peano_ind; intros Hq.
  - symmetry. apply with_clock_id.
  - rewrite advance_succ, IH.
    2:{ intros h t Hts. specialize (Hq h t Hts). lia. }
    rewrite tick_ms_cases by exact Hok.
    cbn [timers clock with_clock].
    destruct (timers w) as [|[h t] [|? ?]] eqn:Hts;
      try (unfold with_clock; cbn; f_equal; lia).
    specialize (Hq h t eq_refl).
    replace (N.eqb (due t) (clock w + d + 1)) with false
      by (symmetry; apply N.eqb_neq; lia).
    unfold with_clock; cbn; f_equal; lia.
Qed.

(** The armed timer runs [fetchData] at the instant it is due, and is due
    again one period later. *)
Lemma advance_fire (w : World) (h : Handle) (t : Timer) :
  timer_slot_ok w = true ->
  timers w = [(h, t)] ->
  clock w < due t ->
  advance (due t - clock w) w =
  with_timers [(h, mkTimer (due t + period t) (period t))]
    (exec fetchData_call (with_clock (due t) w)).
Proof.
  intros Hok Hts Hlt.
  replace (due t - clock w) with (N.succ (due t - clock w - 1)) by lia.
  rewrite advance_succ, advance_idle; [|exact Hok|].
  2:{ intros h' t' Hts'. rewrite Hts in Hts'. inversion Hts'; subst. lia. }
  rewrite tick_ms_cases by exact Hok.
  cbn [timers clock with_clock]. rewrite Hts.
  replace (clock w + (due t - clock w - 1) + 1) with (due t) by lia.
  rewrite N.eqb_refl. reflexivity.
Qed.

(** ** What the operations leave alone *)

Lemma startInterval_frame (w : World) :
  let w' := exec startInterval w in
  data w' = data w /\ loading w' = loading w /\ error w' = error w /\
  calls w' = calls w /\ pending w' = pending w.
Proof.
  unfold exec, startInterval, bind, read_intervalRef.
  destruct (intervalRef w); cbn; repeat split; reflexivity.
Qed.

Lemma cleanup_frame (w : World) :
  let w' := exec cleanup w in
  data w' = data w /\ loading w' = loading w /\ error w' = error w /\
  calls w' = calls w /\ pending w' = pending w.
Proof.
  unfold exec, cleanup, bind, read_intervalRef, read_abortControllerRef.
  destruct (intervalRef w), (abortControllerRef w) eqn:Hc; cbn; rewrite ?Hc;
    cbn; repeat split; reflexivity.
Qed.

Lemma data_run_due (now : N) (ts : list (Handle * Timer)) (w : World) :
  data (fold_left (run_due now) ts w) = data w.
Proof.
  revert w; induction ts as [|ht ts IH]; intros w; cbn [fold_left].
  - reflexivity.
  - rewrite IH. unfold run_due.
    destruct (N.eqb (due (snd ht)) now); [|reflexivity].
    rewrite fetchData_call_exec. reflexivity.
Qed.

Lemma data_tick_ms (w : World) : data (tick_ms w) = data w.
Proof.
  unfold tick_ms. cbv zeta. cbn [data with_timers].
  rewrite data_run_due. reflexivity.
Qed.

Lemma data_advance (d : N) (w : World) : data (advance d w) = data w.
Proof.
  induction d as [|d IH] using N.peano_ind.
  - reflexivity.
  - rewrite advance_succ, data_tick_ms. exact IH.
Qed.

(** The cells after the promise of an outstanding request has settled. *)
Lemma settle_cells (c : Token) (o : Outcome) (w : World) :
  c ∈ pending w ->
  let w' := settle c o w in
  loading w' = false /\
  match o with
  | Resolved result => data w' = Some result /\ error w' = None
  | Rejected err =>
      match reportable err with
      | Some e => data w' = None /\ error w' = Some e
      | None => data w' = data w /\ error w' = error w
      end
  end.
Proof.
  intros Hin. cbv zeta. rewrite (settle_exec c o w Hin), fetchData_resume_exec.
  destruct o as [result | err]; [split; [reflexivity | split; reflexivity]|].
  destruct (reportable err); split; try reflexivity; split; reflexivity.
Qed.

Lemma reportable_abort (e : JsError) :
  name e = "AbortError"%string -> reportable (ThrownError e) = None.
Proof. intros H. unfold reportable. rewrite H. reflexivity. Qed.

Lemma reportable_other (e : JsError) :
  name e <> "AbortError"%string -> reportable (ThrownError e) = Some e.
Proof.
  intros H. unfold reportable.
  destruct (String.eqb (name e) "AbortError") eqn:E; [|reflexivity].
  apply String.eqb_eq in E. contradiction.
Qed.

Lemma abort_active_lookup (w : World) (c : Token) :
  token_ref_ok w = true -> abortControllerRef w = Some c ->
  abort_active w !! c = Some true.
Proof.
  unfold token_ref_ok, abort_active. intros Hr Hc. rewrite Hc in *.
  apply Nat.ltb_lt in Hr. apply list_lookup_insert_eq. exact Hr.
Qed.

(** A new request aborts the signal of the one it supersedes. *)
Lemma fetchData_call_aborts_previous (w : World) (c : Token) :
  token_ref_ok w = true -> abortControllerRef w = Some c ->
  controllers (exec fetchData_call w) !! c = Some true.
Proof.
  intros Hr Hc. rewrite fetchData_call_exec. cbn [controllers].
  rewrite lookup_app_l.
  - apply abort_active_lookup; assumption.
  - rewrite abort_active_length. unfold token_ref_ok in Hr. rewrite Hc in Hr.
    apply Nat.ltb_lt in Hr. exact Hr.
Qed.

Lemma live_unique (w : World) (c : Token) :
  token_slot_ok w = true -> c ∈ live w ->
  live w = [c] /\ abortControllerRef w = Some c.
Proof.
  unfold token_slot_ok. intros Hok Hin.
  destruct (live w) as [|c0 [|? ?]]; try discriminate.
  - inversion Hin.
  - apply list_elem_of_singleton in Hin; subst c0.
    destruct (abortControllerRef w) as [c'|]; [|discriminate].
    apply Nat.eqb_eq in Hok; subst c'. split; reflexivity.
Qed.

Lemma timer_slot_length (w : World) :
  timer_slot_ok w = true -> (length (timers w) <= 1)%nat.
Proof.
  unfold timer_slot_ok.
  destruct (timers w) as [|[h t] [|? ?]]; try discriminate; simpl; lia.
Qed.

Lemma refetch_world (w : World) :
  wf w = true ->
  exec refetch w =
  mkWorld (data w) true None (Some (nextHandle w))
          (Some (length (controllers w))) (abort_active w ++ [false])
          [(nextHandle w,
            mkTimer (clock w + timer_delay interval) (timer_delay interval))]
          (S (nextHandle w)) (clock w)
          (pending w ++ [length (controllers w)])
          (calls w ++ [(clock w, length (controllers w))]).
Proof.
  intros Hwf. rewrite refetch_exec.
  pose proof (proj1 (wf_split _) (wf_fetchData_call w Hwf)) as (Ht & _).
  rewrite (startInterval_exec _ Ht), fetchData_call_exec. reflexivity.
Qed.

Lemma advance_fire_eq (w : World) (h : Handle) (t : Timer) (d : N) :
  timer_slot_ok w = true ->
  timers w = [(h, t)] ->
  clock w < due t ->
  d = due t - clock w ->
  advance d w =
  with_timers [(h, mkTimer (due t + period t) (period t))]
    (exec fetchData_call (with_clock (due t) w)).
Proof. intros Hok Hts Hlt ->. apply advance_fire; assumption. Qed.

Lemma settle_frame (c : Token) (o : Outcome) (w : World) :
  timers (settle c o w) = timers w /\ calls (settle c o w) = calls w.
Proof.
  unfold settle. destruct (existsb (Nat.eqb c) (pending w)); [|split; reflexivity].
  rewrite fetchData_resume_exec.
  destruct o as [r | err]; [split; reflexivity|].
  destruct (reportable err); split; reflexivity.
Qed.

(** Once no timer is armed, only [refetch] can issue a request. *)
Lemma disarmed_stays_silent (evs : list Event) (w : World) :
  wf w = true -> timers w = [] -> forallb not_refetch evs = true ->
  calls (fold_left step evs w) = calls w.
Proof.
  revert w; induction evs as [|e evs IH]; intros w Hwf Hts Hq; cbn [fold_left].
  - reflexivity.
  - cbn [forallb] in Hq. apply andb_true_iff in Hq as (He & Hq).
    pose proof (proj1 (wf_split w) Hwf) as (Ht & _).
    assert (timers (step w e) = [] /\ calls (step w e) = calls w) as (Hts' & Hcs').
    { destruct e as [|d|c o|]; cbn [step]; [discriminate| | |].
      - rewrite advance_idle; [split; [exact Hts | reflexivity] | exact Ht |].
        intros h t Hts'. rewrite Hts in Hts'. discriminate.
      - destruct (settle_frame c o w) as (-> & ->). split; [exact Hts | reflexivity].
      - rewrite (cleanup_exec w Ht). split; reflexivity. }
    rewrite IH; [exact Hcs' | apply wf_step, Hwf | exact Hts' | exact Hq].
Qed.

Lemma mount_immediate :
  immediate = true ->
  mount =
  mkWorld None true None (Some 0%nat) (Some 0%nat) [false]
          [(0%nat, mkTimer (timer_delay interval) (timer_delay interval))]
          1%nat 0 [0%nat] [(0, 0%nat)].
Proof. intros Him. unfold mount, useEffect. rewrite Him. reflexivity. Qed.

Lemma mount_deferred :
  immediate = false ->
  mount =
  mkWorld None false None (Some 0%nat) None []
          [(0%nat, mkTimer (timer_delay interval) (timer_delay interval))]
          1%nat 0 [] [].
Proof. intros Him. unfold mount, useEffect. rewrite Him. reflexivity. Qed.

(** Settling one request leaves the others outstanding. *)
Lemma settle_pending_other (c a : Token) (o : Outcome) (w : World) :
  a ∈ pending w -> a <> c -> a ∈ pending (settle c o w).
Proof.
  intros Ha Hne. unfold settle.
  destruct (existsb (Nat.eqb c) (pending w)); [|exact Ha].
  rewrite fetchData_resume_exec.
  assert (Hf : a ∈ List.filter (fun c' => negb (Nat.eqb c' c)) (pending w)).
  { apply list_elem_of_In, filter_In. split.
    - apply list_elem_of_In, Ha.
    - apply negb_true_iff, Nat.eqb_neq, Hne. }
  destruct o as [r | err]; [exact Hf|].
  destruct (reportable err); exact Hf.
Qed.

(** ** The delay of a timer *)

Lemma timer_delay_pos (ms : N) : 0 < timer_delay ms.
Proof.
  unfold timer_delay.
  destruct (N.ltb ms 1 || N.ltb TIMEOUT_MAX ms) eqn:E; [lia|].
  apply orb_false_iff in E as (E & _). apply N.ltb_ge in E. lia.
Qed.

Lemma timer_delay_le (ms : N) : 0 < ms -> timer_delay ms <= ms.
Proof.
  intros Hpos. unfold timer_delay.
  destruct (N.ltb ms 1 || N.ltb TIMEOUT_MAX ms); lia.
Qed.

Lemma timer_delay_in_range (ms : N) :
  0 < ms -> ms <= TIMEOUT_MAX -> timer_delay ms = ms.
Proof.
  intros Hpos Hmax. unfold timer_delay.
  replace (N.ltb ms 1) with false by (symmetry; apply N.ltb_ge; lia).
  replace (N.ltb TIMEOUT_MAX ms) with false by (symmetry; apply N.ltb_ge; lia).
  reflexivity.
Qed.

(** ** Properties kept by time *)

Lemma advance_add (a b : N) (w : World) :
  advance (a + b) w = advance b (advance a w).
Proof. unfold advance. rewrite N.add_comm. apply N.iter_add. Qed.

Lemma advance_invariant (P : World -> Prop) :
  (forall w, wf w = true -> P w -> P (tick_ms w)) ->
  forall d w, wf w = true -> P w -> P (advance d w).
Proof.
  intros Htick d w Hwf HP. induction d as [|d IH] using N.peano_ind.
  - exact HP.
  - rewrite advance_succ. apply Htick; [apply wf_advance, Hwf | exact IH].
Qed.

Lemma tick_invariant (P : World -> Prop) :
  (forall w, wf w = true -> P w -> P (exec fetchData_call w)) ->
  (forall w t, P w -> P (with_clock t w)) ->
  (forall w l, P w -> P (with_timers l w)) ->
  forall w, wf w = true -> P w -> P (tick_ms w).
Proof.
  intros Hcall Hclock Htimers w Hwf HP.
  rewrite (tick_ms_cases w (proj1 (proj1 (wf_split w) Hwf))).
  destruct (timers w) as [|[h t] [|? ?]]; try (apply Hclock, HP).
  destruct (N.eqb (due t) (clock w + 1)); [|apply Hclock, HP].
  apply Htimers, Hcall; [exact Hwf | apply Hclock, HP].
Qed.

(** Case analysis on how [settle c o w] resumes [fetchData]. *)
Ltac settle_cases c o w :=
  unfold settle;
  destruct (existsb (Nat.eqb c) (pending w));
  [ rewrite fetchData_resume_exec;
    destruct o as [? | ?err];
    [ | destruct (reportable err) ]
  | ].

(** A property kept by the hook's operations, by the settlements that [ok]
    admits and by time is kept along every run of events that [ok] admits. *)
Lemma steps_invariant (ok : Event -> bool) (P : World -> Prop) :
  (forall w, wf w = true -> P w -> P (exec fetchData_call w)) ->
  (forall w, wf w = true -> P w -> P (exec startInterval w)) ->
  (forall w, wf w = true -> P w -> P (exec cleanup w)) ->
  (forall c o w, ok (Settle c o) = true -> wf w = true -> P w -> P (settle c o w)) ->
  (forall w, wf w = true -> P w -> P (tick_ms w)) ->
  forall evs w, forallb ok evs = true -> wf w = true -> P w ->
    P (fold_left step evs w).
Proof.
  intros Hcall Harm Hclean Hsettle Htick evs.
  induction evs as [|e evs IH]; intros w Hok Hwf HP; cbn [fold_left].
  - exact HP.
  - cbn [forallb] in Hok. apply andb_true_iff in Hok as (He & Hok).
    apply IH; [exact Hok | apply wf_step, Hwf |].
    destruct e as [|d|c o|]; cbn [step].
    + rewrite refetch_exec. apply Harm; [apply wf_fetchData_call, Hwf|].
      apply Hcall; assumption.
    + apply advance_invariant; assumption.
    + apply Hsettle; assumption.
    + apply Hclean; assumption.
Qed.

Lemma run_invariant (P : World -> Prop) :
  P init ->
  (forall w, wf w = true -> P w -> P (exec fetchData_call w)) ->
  (forall w, wf w = true -> P w -> P (exec startInterval w)) ->
  (forall w, wf w = true -> P w -> P (exec cleanup w)) ->
  (forall c o w, wf w = true -> P w -> P (settle c o w)) ->
  (forall w, wf w = true -> P w -> P (tick_ms w)) ->
  forall evs, P (run evs).
Proof.
  intros Hinit Hcall Harm Hclean Hsettle Htick evs. unfold run.
  apply (steps_invariant (fun _ => true) P); try assumption.
  - intros c o w _. apply Hsettle.
  - clear. induction evs; [reflexivity | assumption].
  - apply wf_mount.
  - unfold mount, useEffect. rewrite exec_bind.
    destruct immediate; cbn [when].
    + apply Harm; [apply wf_fetchData_call; reflexivity|].
      apply Hcall; [reflexivity | exact Hinit].
    + apply Harm; [reflexivity | exact Hinit].
Qed.

Lemma loading_advance (d : N) (w : World) :
  wf w = true -> loading w = true -> loading (advance d w) = true.
Proof.
  apply (advance_invariant (fun w => loading w = true)).
  apply tick_invariant.
  - intros w0 _ _. rewrite fetchData_call_exec. reflexivity.
  - intros w0 t HP. exact HP.
  - intros w0 l HP. exact HP.
Qed.

(** Time settles no promise. *)
Lemma pending_advance (c : Token) (d : N) (w : World) :
  wf w = true -> c ∈ pending w -> c ∈ pending (advance d w).
Proof.
  apply (advance_invariant (fun w => c ∈ pending w)).
  apply tick_invariant.
  - intros w0 _ HP. rewrite fetchData_call_exec. cbn [pending].
    apply elem_of_app. left. exact HP.
  - intros w0 t HP. exact HP.
  - intros w0 l HP. exact HP.
Qed.

(** ** The claims *)

(** C3. Cancellation swallowing: when the promise of a request rejects with
    an [Error] named "AbortError", the resumed [fetchData] calls neither
    [setError] nor [setData] (its only call is [setLoading(false)]), and
    [data] and [error] are what they were before. *)
Theorem cancellation_is_swallowed (c : Token) (e : JsError) (w : World) :
  name e = "AbortError"%string ->
  let o := Rejected (ThrownError e) in
  effects (fetchData_resume o) w = [ESetLoading false] /\
  data (settle c o w) = data w /\
  error (settle c o w) = error w.
Proof.
  intros Hname o. subst o. pose proof (reportable_abort e Hname) as Hrep. split.
  - unfold effects, fetchData_resume, bind. rewrite Hrep. reflexivity.
  - unfold settle. destruct (existsb (Nat.eqb c) (pending w)); [|split; reflexivity].
    rewrite fetchData_resume_exec, Hrep. split; reflexivity.
Qed.

(** C4. Operation failure: when the promise of an outstanding request
    rejects with an [Error] whose name is not "AbortError", then afterwards
    [error] is that error, [data] is null whatever it was, and [loading] is
    false. *)
Theorem operation_failure_is_reported (c : Token) (e : JsError) (w : World) :
  name e <> "AbortError"%string ->
  c ∈ pending w ->
  let w' := settle c (Rejected (ThrownError e)) w in
  error w' = Some e /\ data w' = None /\ loading w' = false.
Proof.
  intros Hname Hin.
  pose proof (settle_cells c (Rejected (ThrownError e)) w Hin) as H.
  cbv beta iota zeta in H |- *. rewrite (reportable_other e Hname) in H. tauto.
Qed.

(** C5. Non-conforming failure: when the promise of an outstanding request
    rejects with a value that is not an [Error], the resumed [fetchData]
    only calls [setLoading(false)]: [error] is not set, [data] is not
    cleared, and [loading] becomes false. *)
Theorem non_error_rejection_is_dropped (c : Token) (raw : string) (w : World) :
  c ∈ pending w ->
  let o := Rejected (ThrownOther raw) in
  effects (fetchData_resume o) w = [ESetLoading false] /\
  error (settle c o w) = error w /\
  data (settle c o w) = data w /\
  loading (settle c o w) = false.
Proof.
  intros Hin o. subst o.
  pose proof (settle_cells c (Rejected (ThrownOther raw)) w Hin) as H.
  cbn in H. split; [reflexivity | tauto].
Qed.

(** C1 (as amended). Supersession is by cancellation signal only: a new
    request aborts the controller of the one it supersedes and takes its
    place in [abortControllerRef], but the writes of a resuming [fetchData]
    are not guarded by a check of the active token.  Whatever
    [abortControllerRef] holds, the settling of an outstanding request
    writes [data] and [error] according to its outcome alone: a result
    becomes [data] and clears [error]; an [Error] other than "AbortError"
    becomes [error] and clears [data]; an "AbortError" or a value that is
    not an [Error] changes neither. *)
Theorem resolution_writes_ignore_active_token
    (c : Token) (o : Outcome) (r : option Token) (w : World) :
  c ∈ pending w ->
  let w' := settle c o w in
  (data (settle c o (with_abortControllerRef r w)) = data w' /\
   error (settle c o (with_abortControllerRef r w)) = error w') /\
  match o with
  | Resolved result => data w' = Some result /\ error w' = None
  | Rejected (ThrownError e) =>
      if String.eqb (name e) "AbortError"
      then data w' = data w /\ error w' = error w
      else data w' = None /\ error w' = Some e
  | Rejected (ThrownOther _) => data w' = data w /\ error w' = error w
  end /\
  (wf w = true -> forall p, abortControllerRef w = Some p ->
     controllers (exec fetchData_call w) !! p = Some true /\
     abortControllerRef (exec fetchData_call w) <> Some p).
Proof.
  intros Hin. cbv zeta.
  assert (Hin' : c ∈ pending (with_abortControllerRef r w)) by exact Hin.
  rewrite (settle_exec c o _ Hin'), (settle_exec c o w Hin), !fetchData_resume_exec.
  split; [|split].
  - destruct o as [result | err]; [split; reflexivity|].
    destruct (reportable err); split; reflexivity.
  - destruct o as [result | [e | raw]]; cbn [reportable].
    + split; reflexivity.
    + destruct (String.eqb (name e) "AbortError"); split; reflexivity.
    + split; reflexivity.
  - intros Hwf p Hp. pose proof (proj1 (wf_split w) Hwf) as (_ & _ & Hr).
    split; [apply fetchData_call_aborts_previous; assumption|].
    rewrite fetchData_call_exec. cbn [abortControllerRef].
    unfold token_ref_ok in Hr. rewrite Hp in Hr. apply Nat.ltb_lt in Hr.
    intros Heq. inversion Heq. lia.
Qed.

(** C2. What the code does with [loading].  On every run, while [loading]
    is true the controller in [abortControllerRef] is that of an
    outstanding request.  The converse is not kept: the [finally] block
    runs [setLoading(false)] for every request that settles, so when a
    request [c] settles after a newer request [a] has superseded it,
    [loading] becomes false although [a] is still the active request and
    still outstanding. *)
Theorem loading_cleared_by_superseded_request
    (evs : list Event) (c a : Token) (o : Outcome) :
  (loading (run evs) = true ->
   exists a', abortControllerRef (run evs) = Some a' /\ a' ∈ pending (run evs)) /\
  (c ∈ pending (run evs) ->
   abortControllerRef (run evs) = Some a ->
   a ∈ pending (run evs) ->
   a <> c ->
   loading (settle c o (run evs)) = false /\
   abortControllerRef (settle c o (run evs)) = Some a /\
   a ∈ pending (settle c o (run evs))).
Proof.
  split.
  - apply (run_invariant
             (fun w => loading w = true ->
                exists a', abortControllerRef w = Some a' /\ a' ∈ pending w)).
    + discriminate.
    + intros w _ _ _. rewrite fetchData_call_exec.
      cbn [abortControllerRef pending]. eexists. split; [reflexivity|].
      apply elem_of_app. right. apply list_elem_of_here.
    + intros w Hwf HP.
      rewrite (startInterval_exec w (proj1 (proj1 (wf_split w) Hwf))). exact HP.
    + intros w Hwf HP.
      rewrite (cleanup_exec w (proj1 (proj1 (wf_split w) Hwf))). exact HP.
    + intros c0 o0 w _ HP. settle_cases c0 o0 w;
        try (cbn [loading with_loading]; discriminate). exact HP.
    + apply (tick_invariant
               (fun w => loading w = true ->
                  exists a', abortControllerRef w = Some a' /\ a' ∈ pending w)).
      * intros w _ _ _. rewrite fetchData_call_exec.
        cbn [abortControllerRef pending]. eexists. split; [reflexivity|].
        apply elem_of_app. right. apply list_elem_of_here.
      * intros w t HP. exact HP.
      * intros w l HP. exact HP.
  - intros Hc Ha Hpa Hne.
    split; [apply (settle_cells c o _ Hc)|].
    split; [|apply settle_pending_other; assumption].
    rewrite (settle_exec c o _ Hc), fetchData_resume_exec.
    destruct o as [r | err]; [exact Ha|].
    destruct (reportable err); exact Ha.
Qed.

(** C6. Request issuance: [fetchData] first aborts the controller in
    [abortControllerRef] if there is one, then creates a controller that did
    not exist before and stores it in [abortControllerRef], then calls
    [setLoading(true)] and [setError(null)], and only then calls [apiCall]
    with the new controller's signal.  Afterwards the new controller is the
    only one whose signal is not aborted.  The effect's immediate path,
    a due timer and [refetch] all issue requests this way. *)
Theorem issuance_preamble (w : World) :
  wf w = true ->
  let k := length (controllers w) in
  let w' := exec fetchData_call w in
  effects fetchData_call w =
    match abortControllerRef w with
    | Some c => [EAbort c]
    | None => []
    end ++
    [ENewAbortController k; ESetLoading true; ESetError None; EApiCall k] /\
  (forall c, abortControllerRef w = Some c -> controllers w' !! c = Some true) /\
  controllers w !! k = None /\
  controllers w' !! k = Some false /\
  abortControllerRef w' = Some k /\
  live w' = [k] /\
  loading w' = true /\
  error w' = None /\
  calls w' = calls w ++ [(clock w, k)] /\
  pending w' = pending w ++ [k] /\
  effects refetch w = effects fetchData_call w ++ effects startInterval w' /\
  (immediate = true ->
   effects useEffect w = effects fetchData_call w ++ effects startInterval w') /\
  (forall h t, timers w = [(h, t)] -> due t = clock w + 1 ->
   tick_ms w =
   with_timers [(h, mkTimer (due t + period t) (period t))]
     (exec fetchData_call (with_clock (clock w + 1) w))).
Proof.
  intros Hwf. pose proof (proj1 (wf_split w) Hwf) as (Ht & Hs & Hr). cbv zeta.
  split; [apply fetchData_call_effects|].
  split; [intros c Hc; apply fetchData_call_aborts_previous; assumption|].
  split; [apply lookup_ge_None; lia|].
  split.
  { rewrite fetchData_call_exec. cbn [controllers].
    rewrite lookup_app_r by (rewrite abort_active_length; lia).
    rewrite abort_active_length, Nat.sub_diag. reflexivity. }
  split; [rewrite fetchData_call_exec; reflexivity|].
  split; [apply live_fetchData_call, Hs|].
  split; [rewrite fetchData_call_exec; reflexivity|].
  split; [rewrite fetchData_call_exec; reflexivity|].
  split; [rewrite fetchData_call_exec; reflexivity|].
  split; [rewrite fetchData_call_exec; reflexivity|].
  split; [unfold refetch; rewrite effects_bind; reflexivity|].
  split.
  { intros Him. unfold useEffect. rewrite Him. cbn [when].
    rewrite effects_bind. reflexivity. }
  intros h t Hts Hdue. rewrite (tick_ms_cases w Ht), Hts, Hdue, N.eqb_refl.
  reflexivity.
Qed.

(** C7. Manual trigger restarts the period: for an interval the platform
    takes as it is (from 1 to [TIMEOUT_MAX] milliseconds), [refetch] at
    time [clock w] issues a request at once (aborting the controller of the
    previous one) and then restarts the timer: [startInterval] clears the
    handle in [intervalRef] before it calls [setInterval], the only armed
    timer is the new one, no request is issued before [interval]
    milliseconds have passed, and one is issued exactly then.  In every
    reachable state at most one timer is armed. *)
Theorem refetch_restarts_period (w : World) :
  0 < interval ->
  interval <= TIMEOUT_MAX ->
  wf w = true ->
  let k := length (controllers w) in
  let w' := exec refetch w in
  effects refetch w =
    effects fetchData_call w ++
    (match intervalRef w with
     | Some h => [EClearInterval h]
     | None => []
     end ++ [ESetInterval (nextHandle w) interval]) /\
  calls w' = calls w ++ [(clock w, k)] /\
  (forall c, abortControllerRef w = Some c -> controllers w' !! c = Some true) /\
  timers w' = [(nextHandle w, mkTimer (clock w + interval) interval)] /\
  (forall d, d < interval -> calls (advance d w') = calls w') /\
  calls (advance interval w') = calls w' ++ [(clock w + interval, S k)] /\
  (forall evs, (length (timers (run evs)) <= 1)%nat).
Proof.
  intros Hpos Hmax Hwf. cbv zeta.
  pose proof (proj1 (wf_split w) Hwf) as (Ht & Hs & Hr).
  pose proof (proj1 (wf_split _) (wf_refetch w Hwf)) as (Ht' & _).
  pose proof (refetch_world w Hwf) as Hw'.
  rewrite (timer_delay_in_range interval Hpos Hmax) in Hw'.
  split.
  { unfold refetch. rewrite effects_bind, startInterval_effects.
    rewrite fetchData_call_exec. reflexivity. }
  split; [rewrite Hw'; reflexivity|].
  split.
  { intros c Hc. rewrite Hw'. cbn [controllers].
    rewrite lookup_app_l.
    - apply abort_active_lookup; assumption.
    - rewrite abort_active_length. unfold token_ref_ok in Hr. rewrite Hc in Hr.
      apply Nat.ltb_lt in Hr. exact Hr. }
  split; [rewrite Hw'; reflexivity|].
  split.
  { intros d Hd. rewrite advance_idle; [reflexivity | exact Ht' |].
    intros h t Hts. rewrite Hw' in Hts |- *. cbn [timers clock] in *.
    inversion Hts; subst. cbn [due]. lia. }
  split.
  { rewrite (advance_fire_eq (exec refetch w) (nextHandle w)
               (mkTimer (clock w + interval) interval) interval Ht').
    - rewrite fetchData_call_exec. cbn [calls with_timers with_clock clock controllers due].
      rewrite Hw'. cbn [calls controllers].
      rewrite length_app, abort_active_length. cbn [length].
      rewrite Nat.add_1_r. reflexivity.
    - rewrite Hw'. reflexivity.
    - rewrite Hw'. cbn [clock due]. lia.
    - rewrite Hw'. cbn [clock due]. lia. }
  intros evs. apply timer_slot_length.
  apply (proj1 (wf_split _) (wf_run evs)).
Qed.

(** C8. Teardown: the cleanup leaves no timer armed, so whatever happens
    afterwards short of a call to [refetch] (time passing, promises
    settling, the cleanup running again) issues no request; it aborts the
    controller of the request in flight and leaves that request
    outstanding; and running it a second time changes nothing. *)
Theorem cleanup_is_final_and_idempotent (w : World) :
  wf w = true ->
  let w' := exec cleanup w in
  timers w' = [] /\
  (forall evs, forallb not_refetch evs = true ->
     calls (fold_left step evs w') = calls w') /\
  (forall d, calls (advance d w') = calls w') /\
  (forall c, abortControllerRef w = Some c -> controllers w' !! c = Some true) /\
  pending w' = pending w /\
  exec cleanup w' = w'.
Proof.
  intros Hwf. cbv zeta.
  pose proof (proj1 (wf_split w) Hwf) as (Ht & Hs & Hr).
  pose proof (wf_cleanup w Hwf) as Hwf'.
  pose proof (proj1 (wf_split _) Hwf') as (Ht' & _).
  assert (Hts : timers (exec cleanup w) = []) by (rewrite (cleanup_exec w Ht); reflexivity).
  split; [exact Hts|].
  split; [intros evs Hq; apply disarmed_stays_silent; assumption|].
  split.
  { intros d. apply (disarmed_stays_silent [Advance d]); [assumption | assumption | reflexivity]. }
  split.
  { intros c Hc. rewrite (cleanup_exec w Ht). cbn [controllers].
    apply abort_active_lookup; assumption. }
  split; [apply cleanup_frame|].
  rewrite (cleanup_exec _ Ht'), (cleanup_exec w Ht).
  unfold abort_active. cbn [data loading error intervalRef abortControllerRef
    controllers nextHandle clock pending calls].
  destruct (abortControllerRef w) as [c|]; [|reflexivity].
  rewrite list_insert_insert_eq. reflexivity.
Qed.

(** C9. Data is untouched by issuance: issuing a request, by [fetchData],
    [refetch] or a timer, arming the timer, the passing of time and the
    cleanup all leave [data] as it is, and [fetchData] does not call
    [setData] before the [await].  [data] changes only when the promise of
    an outstanding request settles: to the result, or to null on a
    reportable error.  So with [immediate] a fetched value stays visible
    while the next request loads: null, [v1], [v1] (loading), [v2]. *)
Theorem data_changes_only_on_settle (w : World) :
  data (exec fetchData_call w) = data w /\
  (forall d, ESetData d ∉ effects fetchData_call w) /\
  data (exec refetch w) = data w /\
  data (exec startInterval w) = data w /\
  (forall d, data (advance d w) = data w) /\
  data (exec cleanup w) = data w /\
  (forall c o, c ∉ pending w -> settle c o w = w) /\
  (forall c o, c ∈ pending w ->
     data (settle c o w) =
     match o with
     | Resolved result => Some result
     | Rejected err =>
         match reportable err with
         | Some _ => None
         | None => data w
         end
     end) /\
  (immediate = true -> 0 < interval -> forall v1 v2 : T,
     let w0 := mount in
     let w1 := settle 0%nat (Resolved v1) w0 in
     let w2 := advance interval w1 in
     let w3 := settle 1%nat (Resolved v2) w2 in
     (data w0 = None /\ loading w0 = true) /\
     (data w1 = Some v1 /\ loading w1 = false) /\
     (data w2 = Some v1 /\ loading w2 = true) /\
     (data w3 = Some v2 /\ loading w3 = false)).
Proof.
  split; [rewrite fetchData_call_exec; reflexivity|].
  split.
  { intros d Hin. rewrite fetchData_call_effects in Hin.
    apply elem_of_app in Hin as [Hin | Hin].
    - destruct (abortControllerRef w); [|inversion Hin].
      apply list_elem_of_singleton in Hin. discriminate.
    - repeat (apply elem_of_cons in Hin as [Hin | Hin]; [discriminate|]).
      inversion Hin. }
  split.
  { rewrite refetch_exec.
    rewrite (proj1 (startInterval_frame _)), fetchData_call_exec. reflexivity. }
  split; [apply startInterval_frame|].
  split; [intros d; apply data_advance|].
  split; [apply cleanup_frame|].
  split.
  { intros c o Hnin. unfold settle.
    destruct (existsb (Nat.eqb c) (pending w)) eqn:E; [|reflexivity].
    exfalso. apply Hnin. apply existsb_exists in E as (x & Hx & Heq).
    apply Nat.eqb_eq in Heq; subst x. apply list_elem_of_In, Hx. }
  split.
  { intros c o Hin. pose proof (settle_cells c o w Hin) as (_ & H).
    destruct o as [r | err]; [apply H|].
    destruct (reportable err); apply H. }
  intros Him Hpos v1 v2. cbv zeta. rewrite (mount_immediate Him).
  split; [split; reflexivity|].
  split; [split; reflexivity|].
  pose proof (timer_delay_pos interval) as Hdpos.
  pose proof (timer_delay_le interval Hpos) as Hdle.
  set (p := timer_delay interval) in *.
  replace interval with (p + (interval - p)) by lia.
  rewrite advance_add.
  rewrite (advance_fire_eq _ 0%nat (mkTimer p p) p);
    [| reflexivity | reflexivity | cbn; lia | cbn; lia].
  match goal with
  | |- context [advance (interval - p) ?x] => set (wF := x)
  end.
  assert (HwfF : wf wF = true) by reflexivity.
  assert (HlF : loading wF = true) by reflexivity.
  assert (HpF : 1%nat ∈ pending wF) by (apply list_elem_of_here).
  pose proof (loading_advance (interval - p) wF HwfF HlF) as Hl.
  pose proof (pending_advance 1%nat (interval - p) wF HwfF HpF) as Hp.
  split; [split; [rewrite data_advance; reflexivity | exact Hl]|].
  destruct (settle_cells 1%nat (Resolved v2) _ Hp) as (Hl3 & Hd3 & _).
  split; assumption.
Qed.

(** C10. Initial state: before the effect has run, [data] is null,
    [loading] is false and [error] is null, and on every run they stay so
    for as long as no request has been issued.  With [immediate] false the
    effect issues none; for an interval the platform takes as it is (from 1
    to [TIMEOUT_MAX] milliseconds) none is issued, and none is there to
    settle, while fewer than [interval] milliseconds have passed, and the
    first request is issued by the timer at [interval] milliseconds. *)
Theorem initial_state :
  (data init = None /\ loading init = false /\ error init = None) /\
  (forall evs, calls (run evs) = [] ->
     data (run evs) = None /\ loading (run evs) = false /\
     error (run evs) = None /\ pending (run evs) = []) /\
  (immediate = false -> calls mount = []) /\
  (immediate = false -> 0 < interval -> interval <= TIMEOUT_MAX ->
   forall d, d < interval ->
     let w := advance d mount in
     data w = None /\ loading w = false /\ error w = None /\
     calls w = [] /\ forall c o, settle c o w = w) /\
  (immediate = false -> 0 < interval -> interval <= TIMEOUT_MAX ->
     let w := advance interval mount in
     calls w = [(interval, 0%nat)] /\ loading w = true).
Proof.
  split; [repeat split; reflexivity|].
  split.
  { apply (run_invariant
             (fun w => calls w = [] ->
                data w = None /\ loading w = false /\ error w = None /\
                pending w = [])).
    - intros _. repeat split; reflexivity.
    - intros w _ _ Hc. rewrite fetchData_call_exec in Hc. cbn [calls] in Hc.
      destruct (calls w); discriminate.
    - intros w Hwf HP.
      rewrite (startInterval_exec w (proj1 (proj1 (wf_split w) Hwf))). exact HP.
    - intros w Hwf HP.
      rewrite (cleanup_exec w (proj1 (proj1 (wf_split w) Hwf))). exact HP.
    - intros c o w _ HP Hc.
      assert (Hc' : calls w = []) by (rewrite <- (proj2 (settle_frame c o w)); exact Hc).
      destruct (HP Hc') as (Hd & Hl & He & Hp).
      unfold settle. rewrite Hp. cbn [existsb]. repeat split; assumption.
    - apply (tick_invariant
               (fun w => calls w = [] ->
                  data w = None /\ loading w = false /\ error w = None /\
                  pending w = [])).
      + intros w _ _ Hc. rewrite fetchData_call_exec in Hc. cbn [calls] in Hc.
        destruct (calls w); discriminate.
      + intros w t HP. exact HP.
      + intros w l HP. exact HP. }
  split; [intros Him; rewrite (mount_deferred Him); reflexivity|].
  split.
  - intros Him Hpos Hmax d Hd. cbv zeta. rewrite (mount_deferred Him).
    rewrite (timer_delay_in_range interval Hpos Hmax).
    rewrite advance_idle; [repeat split; reflexivity | reflexivity |].
    intros h t Hts. inversion Hts; subst. cbn. lia.
  - intros Him Hpos Hmax. cbv zeta. rewrite (mount_deferred Him).
    rewrite (timer_delay_in_range interval Hpos Hmax).
    rewrite (advance_fire_eq _ 0%nat (mkTimer interval interval) interval);
      [split; reflexivity | reflexivity | reflexivity | cbn; lia | cbn; lia].
Qed.

(** ** Further properties of the hook *)

(** The world right after the armed timer has run. *)
Lemma advance_fire_facts (w : World) (h : Handle) (t : Timer) :
  wf w = true -> timers w = [(h, t)] -> clock w < due t ->
  let w1 := advance (due t - clock w) w in
  wf w1 = true /\
  timers w1 = [(h, mkTimer (due t + period t) (period t))] /\
  clock w1 = due t /\
  calls w1 = calls w ++ [(due t, length (controllers w))] /\
  length (controllers w1) = S (length (controllers w)).
Proof.
  intros Hwf Hts Hlt. cbv zeta.
  split; [apply wf_advance, Hwf|].
  pose proof (proj1 (wf_split w) Hwf) as (Ht & _).
  rewrite (advance_fire w h t Ht Hts Hlt), fetchData_call_exec.
  cbn [timers clock calls controllers with_timers with_clock].
  repeat split.
  rewrite length_app. change (abort_active (with_clock (due t) w)) with (abort_active w).
  rewrite abort_active_length. cbn [length]. lia.
Qed.

Lemma fire_log_succ (t : Timer) (first : Token) (n : nat) :
  fire_log t first (S n) =
  (due t, first) ::
  fire_log (mkTimer (due t + period t) (period t)) (S first) n.
Proof.
  unfold fire_log. rewrite <- cons_seq, <- seq_shift. cbn [map due period].
  f_equal.
  - f_equal; [cbn; lia | lia].
  - rewrite map_map. apply map_ext. intros i. f_equal; [|lia].
    rewrite Nat2N.inj_succ, N.mul_succ_l. lia.
Qed.

Lemma timer_log (n : nat) :
  forall (w : World) (h : Handle) (t : Timer) (d : N),
    wf w = true -> timers w = [(h, t)] -> 0 < period t -> clock w < due t ->
    fire_count t (clock w) d = n ->
    calls (advance d w) = calls w ++ fire_log t (length (controllers w)) n.
Proof.
  induction n as [|n IH]; intros w h t d Hwf Hts Hp Hlt Hn;
    unfold fire_count in Hn;
    destruct (N.ltb (clock w + d) (due t)) eqn:Hcmp; try discriminate.
  - apply N.ltb_lt in Hcmp.
    rewrite advance_idle.
    + cbn [fire_log]. unfold fire_log. cbn [seq map]. rewrite app_nil_r. reflexivity.
    + apply (proj1 (wf_split w) Hwf).
    + intros h' t' Hts'. rewrite Hts in Hts'. inversion Hts'; subst. exact Hcmp.
  - apply N.ltb_ge in Hcmp. injection Hn as Hn.
    replace d with ((due t - clock w) + (d - (due t - clock w))) by lia.
    rewrite advance_add.
    destruct (advance_fire_facts w h t Hwf Hts Hlt) as (Hwf1 & Hts1 & Hck1 & Hcs1 & Hlen1).
    set (w1 := advance (due t - clock w) w) in *.
    set (d' := d - (due t - clock w)).
    rewrite (IH w1 h (mkTimer (due t + period t) (period t)) d' Hwf1 Hts1).
    + rewrite Hcs1, Hlen1, fire_log_succ, <- app_assoc. reflexivity.
    + exact Hp.
    + rewrite Hck1. cbn [due]. lia.
    + unfold fire_count. rewrite Hck1. cbn [due period].
      replace (clock w + d - due t) with d' in Hn by (unfold d'; lia).
      destruct (N.ltb (due t + d') (due t + period t)) eqn:Hcmp'.
      * apply N.ltb_lt in Hcmp'. rewrite N.div_small in Hn by lia. exact Hn.
      * apply N.ltb_ge in Hcmp'. rewrite <- Hn.
        replace (due t + d' - (due t + period t)) with (d' - period t) by lia.
        replace d' with (1 * period t + (d' - period t)) at 2 by lia.
        rewrite N.div_add_l by lia. rewrite N2Nat.inj_add. reflexivity.
Qed.

(** *** Invariants of the reachable states *)

(** The signals passed to [apiCall] are the controllers, in the order of
    their creation. *)
Lemma calls_match_controllers_run (evs : list Event) :
  map snd (calls (run evs)) = seq 0 (length (controllers (run evs))).
Proof.
  apply (run_invariant
           (fun w => map snd (calls w) = seq 0 (length (controllers w)))).
  - reflexivity.
  - intros w _ HP. rewrite fetchData_call_exec. cbn [calls controllers].
    rewrite map_app, HP, length_app, abort_active_length. cbn [map snd length].
    rewrite Nat.add_1_r, seq_S. reflexivity.
  - intros w Hwf HP.
    rewrite (startInterval_exec w (proj1 (proj1 (wf_split w) Hwf))). exact HP.
  - intros w Hwf HP.
    rewrite (cleanup_exec w (proj1 (proj1 (wf_split w) Hwf))).
    cbn [calls controllers]. rewrite abort_active_length. exact HP.
  - intros c o w _ HP. settle_cases c o w; exact HP.
  - apply tick_invariant.
    + intros w _ HP. rewrite fetchData_call_exec. cbn [calls controllers].
      rewrite map_app, HP, length_app, abort_active_length. cbn [map snd length].
      rewrite Nat.add_1_r, seq_S. reflexivity.
    + intros w t HP. exact HP.
    + intros w l HP. exact HP.
Qed.

Lemma abort_active_keeps (w : World) (c : Token) :
  controllers w !! c = Some true -> abort_active w !! c = Some true.
Proof.
  intros Hc. unfold abort_active. destruct (abortControllerRef w) as [c'|]; [|exact Hc].
  destruct (decide (c' = c)) as [-> | Hne].
  - apply list_lookup_insert_eq. apply lookup_lt_Some in Hc. exact Hc.
  - rewrite list_lookup_insert_ne by exact Hne. exact Hc.
Qed.

(** An aborted signal stays aborted. *)
Lemma aborted_stays (c : Token) (evs : list Event) (w : World) :
  wf w = true -> controllers w !! c = Some true ->
  controllers (fold_left step evs w) !! c = Some true.
Proof.
  intros Hwf Hc.
  apply (steps_invariant (fun _ => true)
           (fun w => controllers w !! c = Some true)); try assumption.
  - intros w0 _ HP. rewrite fetchData_call_exec. cbn [controllers].
    rewrite lookup_app_l.
    + apply abort_active_keeps, HP.
    + rewrite abort_active_length. apply lookup_lt_Some in HP. exact HP.
  - intros w0 Hwf0 HP.
    rewrite (startInterval_exec w0 (proj1 (proj1 (wf_split w0) Hwf0))). exact HP.
  - intros w0 Hwf0 HP.
    rewrite (cleanup_exec w0 (proj1 (proj1 (wf_split w0) Hwf0))).
    cbn [controllers]. apply abort_active_keeps, HP.
  - intros c0 o w0 _ _ HP. settle_cases c0 o w0; exact HP.
  - apply tick_invariant.
    + intros w0 _ HP. rewrite fetchData_call_exec. cbn [controllers].
      rewrite lookup_app_l.
      * apply abort_active_keeps, HP.
      * rewrite abort_active_length. apply lookup_lt_Some in HP. exact HP.
    + intros w0 t HP. exact HP.
    + intros w0 l HP. exact HP.
  - clear. induction evs; [reflexivity | assumption].
Qed.

(** A controller that exists and is not live is aborted. *)
Lemma not_live_aborted (l : list bool) (c : Token) :
  (c < length l)%nat -> c ∉ live_from 0%nat l -> l !! c = Some true.
Proof.
  intros Hlt Hnl. destruct (lookup_lt_is_Some_2 l c Hlt) as [b Hb].
  destruct b; [exact Hb|].
  exfalso. apply Hnl, live_from_spec. exists c. split; [reflexivity | exact Hb].
Qed.

Lemma called_token_exists (evs : list Event) (tm : N) (c : Token) :
  (tm, c) ∈ calls (run evs) -> (c < length (controllers (run evs)))%nat.
Proof.
  intros Hin.
  assert (Hc : In c (map snd (calls (run evs)))).
  { apply in_map_iff. exists (tm, c). split; [reflexivity|].
    apply list_elem_of_In, Hin. }
  rewrite (calls_match_controllers_run evs) in Hc.
  apply in_seq in Hc. lia.
Qed.

Lemma fire_count_from_zero (p d : N) :
  0 < p -> fire_count (mkTimer p p) 0 d = N.to_nat (d / p).
Proof.
  intros Hp. unfold fire_count. cbn [due period]. rewrite N.add_0_l.
  destruct (N.ltb d p) eqn:Hcmp.
  - apply N.ltb_lt in Hcmp. rewrite N.div_small by exact Hcmp. reflexivity.
  - apply N.ltb_ge in Hcmp.
    replace d with (1 * p + (d - p)) at 2 by lia.
    rewrite N.div_add_l by lia. rewrite N2Nat.inj_add. reflexivity.
Qed.

Lemma fire_log_multiples (p : N) (n : nat) :
  fire_log (mkTimer p p) 0%nat n =
  map (fun i => (N.of_nat (S i) * p, i)) (seq 0 n).
Proof.
  unfold fire_log. apply map_ext. intros i. cbn [due period].
  rewrite Nat2N.inj_succ, N.mul_succ_l. f_equal. lia.
Qed.

Lemma fire_log_multiples_from_one (p : N) (n : nat) :
  (0, 0%nat) :: fire_log (mkTimer p p) 1%nat n =
  map (fun i => (N.of_nat i * p, i)) (seq 0 (S n)).
Proof.
  rewrite <- cons_seq, <- seq_shift. cbn [map]. f_equal.
  unfold fire_log. rewrite map_map. apply map_ext. intros i. cbn [due period].
  rewrite Nat2N.inj_succ, N.mul_succ_l. f_equal. lia.
Qed.

(** *** Properties beyond the claims *)

(** X1. Timer schedule: while nothing but time passes, the armed timer
    issues one request each time it is due, at [due], [due + period],
    [due + 2 * period], ..., and none in between; each request gets a
    controller created for it. *)
Theorem timer_fires_every_period
    (w : World) (h : Handle) (t : Timer) (d : N) :
  wf w = true ->
  timers w = [(h, t)] ->
  0 < period t ->
  clock w < due t ->
  calls (advance d w) =
  calls w ++ fire_log t (length (controllers w)) (fire_count t (clock w) d).
Proof.
  intros Hwf Hts Hp Hlt. apply (timer_log _ w h t d); auto.
Qed.

(** X2. Polling schedule after mounting, for an interval the platform
    takes as it is (from 1 to [TIMEOUT_MAX] milliseconds): with
    [immediate], request [i] is issued at [i * interval] milliseconds, for
    every [i] up to [d / interval] once [d] milliseconds have passed;
    without [immediate], request [i] is issued at [(i + 1) * interval]. *)
Theorem polling_schedule_after_mount (d : N) :
  0 < interval ->
  interval <= TIMEOUT_MAX ->
  calls (advance d mount) =
  if immediate
  then map (fun i => (N.of_nat i * interval, i))
           (seq 0 (S (N.to_nat (d / interval))))
  else map (fun i => (N.of_nat (S i) * interval, i))
           (seq 0 (N.to_nat (d / interval))).
Proof.
  intros Hpos Hmax. destruct immediate eqn:Him.
  - rewrite (mount_immediate Him), (timer_delay_in_range interval Hpos Hmax).
    erewrite timer_log;
      [ | reflexivity | reflexivity | exact Hpos | exact Hpos | reflexivity ].
    cbn [calls controllers length clock app].
    rewrite (fire_count_from_zero interval d Hpos).
    apply fire_log_multiples_from_one.
  - rewrite (mount_deferred Him), (timer_delay_in_range interval Hpos Hmax).
    erewrite timer_log;
      [ | reflexivity | reflexivity | exact Hpos | exact Hpos | reflexivity ].
    cbn [calls controllers length clock app].
    rewrite (fire_count_from_zero interval d Hpos).
    apply fire_log_multiples.
Qed.

(** X3. For an interval the platform takes as it is (from 1 to
    [TIMEOUT_MAX] milliseconds), in every reachable state the armed timer
    repeats every [interval] milliseconds and its next run lies ahead, at
    most [interval] milliseconds away. *)
Theorem armed_timer_is_ahead (evs : list Event) (h : Handle) (t : Timer) :
  0 < interval ->
  interval <= TIMEOUT_MAX ->
  timers (run evs) = [(h, t)] ->
  period t = interval /\
  clock (run evs) < due t /\
  due t <= clock (run evs) + interval.
Proof.
  intros Hpos Hmax. revert h t.
  pose proof (timer_delay_in_range interval Hpos Hmax) as Hdelay.
  apply (run_invariant
           (fun w => forall h t, timers w = [(h, t)] ->
              period t = interval /\ clock w < due t /\ due t <= clock w + interval)).
  - intros h t Hts. discriminate.
  - intros w _ HP h t Hts. rewrite fetchData_call_exec in Hts |- *. exact (HP h t Hts).
  - intros w Hwf _ h t Hts.
    rewrite (startInterval_exec w (proj1 (proj1 (wf_split w) Hwf))) in Hts |- *.
    rewrite Hdelay in Hts.
    cbn [timers clock] in *. inversion Hts; subst. cbn [due period]. lia.
  - intros w Hwf _ h t Hts.
    rewrite (cleanup_exec w (proj1 (proj1 (wf_split w) Hwf))) in Hts. discriminate.
  - intros c o w _ HP h t. settle_cases c o w; exact (HP h t).
  - intros w Hwf HP h t.
    rewrite (tick_ms_cases w (proj1 (proj1 (wf_split w) Hwf))).
    destruct (timers w) as [|[h0 t0] [|? ?]] eqn:Hts0;
      try (cbn [timers with_clock]; rewrite Hts0; discriminate).
    destruct (HP h0 t0 eq_refl) as (Hper & Hlo & Hhi).
    destruct (N.eqb (due t0) (clock w + 1)) eqn:Hdue.
    + apply N.eqb_eq in Hdue. rewrite fetchData_call_exec.
      cbn [timers clock with_timers with_clock]. intros Hts.
      inversion Hts; subst. cbn [due period]. lia.
    + apply N.eqb_neq in Hdue. cbn [timers clock with_clock]. rewrite Hts0.
      intros Hts. inversion Hts; subst. lia.
Qed.

(** X4. In every reachable state [apiCall] has been called once for each
    controller created, in the order of their creation: no two calls share
    a signal. *)
Theorem each_call_has_its_own_signal (evs : list Event) :
  map snd (calls (run evs)) = seq 0 (length (controllers (run evs))) /\
  NoDup (map snd (calls (run evs))).
Proof.
  pose proof (calls_match_controllers_run evs) as H. split; [exact H|].
  rewrite H. apply NoDup_ListNoDup, seq_NoDup.
Qed.

(** X5. A signal that was passed to [apiCall] and is no longer the one in
    [abortControllerRef] is aborted, and stays so whatever happens next;
    once the cleanup has run, every signal ever passed to [apiCall] is
    aborted and stays so. *)
Theorem superseded_signals_stay_aborted
    (evs evs' : list Event) (tm : N) (c : Token) :
  (tm, c) ∈ calls (run evs) ->
  (abortControllerRef (run evs) <> Some c ->
   controllers (run (evs ++ evs')) !! c = Some true) /\
  controllers (run (evs ++ Unmount :: evs')) !! c = Some true.
Proof.
  intros Hin. pose proof (called_token_exists evs tm c Hin) as Hlt.
  pose proof (wf_run evs) as Hwf.
  pose proof (proj1 (wf_split _) Hwf) as (Ht & Hs & Hr).
  unfold run in *. rewrite !fold_left_app. cbn [fold_left step]. split.
  - intros Hne. apply aborted_stays; [exact Hwf|].
    apply not_live_aborted; [exact Hlt|].
    intros Hlive. apply Hne. apply (live_unique _ c Hs Hlive).
  - apply aborted_stays; [apply wf_cleanup, Hwf|].
    rewrite (cleanup_exec _ Ht). cbn [controllers].
    apply not_live_aborted.
    + rewrite abort_active_length. exact Hlt.
    + rewrite (live_abort_active _ Hs). intros Hnil. inversion Hnil.
Qed.

(** X6. The cleanup does not disable [refetch]: called after the cleanup,
    [refetch] issues a request at once and arms a new timer, which, for an
    interval the platform takes as it is (from 1 to [TIMEOUT_MAX]
    milliseconds), then issues a request every [interval] milliseconds. *)
Theorem refetch_after_cleanup_restarts_polling (w : World) (d : N) :
  0 < interval ->
  interval <= TIMEOUT_MAX ->
  wf w = true ->
  let w' := exec refetch (exec cleanup w) in
  let t := mkTimer (clock w + interval) interval in
  timers (exec cleanup w) = [] /\
  timers w' = [(nextHandle w, t)] /\
  calls (advance d w') =
  calls w ++ (clock w, length (controllers w)) ::
  fire_log t (S (length (controllers w))) (fire_count t (clock w) d).
Proof.
  intros Hpos Hmax Hwf. cbv zeta.
  pose proof (proj1 (wf_split w) Hwf) as (Ht & _).
  pose proof (wf_cleanup w Hwf) as Hwfc.
  pose proof (cleanup_exec w Ht) as Hc.
  assert (Hck : clock (exec cleanup w) = clock w) by (rewrite Hc; reflexivity).
  assert (Hnh : nextHandle (exec cleanup w) = nextHandle w) by (rewrite Hc; reflexivity).
  assert (Hcs : calls (exec cleanup w) = calls w) by (rewrite Hc; reflexivity).
  assert (Hlen : length (controllers (exec cleanup w)) = length (controllers w))
    by (rewrite Hc; apply abort_active_length).
  assert (Hts : timers (exec cleanup w) = []) by (rewrite Hc; reflexivity).
  clear Hc. set (wc := exec cleanup w) in *.
  pose proof (refetch_world wc Hwfc) as Hw'.
  rewrite (timer_delay_in_range interval Hpos Hmax) in Hw'.
  assert (Hts' : timers (exec refetch wc) =
                 [(nextHandle w, mkTimer (clock w + interval) interval)])
    by (rewrite Hw'; cbn [timers]; rewrite Hnh, Hck; reflexivity).
  assert (Hck' : clock (exec refetch wc) = clock w)
    by (rewrite Hw'; exact Hck).
  assert (Hcs' : calls (exec refetch wc) =
                 calls w ++ [(clock w, length (controllers w))])
    by (rewrite Hw'; cbn [calls]; rewrite Hcs, Hck, Hlen; reflexivity).
  assert (Hlen' : length (controllers (exec refetch wc)) = S (length (controllers w))).
  { rewrite Hw'. cbn [controllers].
    rewrite length_app, abort_active_length, Hlen. cbn [length]. lia. }
  split; [exact Hts|]. split; [exact Hts'|].
  rewrite (timer_log
             (fire_count (mkTimer (clock w + interval) interval)
                (clock (exec refetch wc)) d)
             (exec refetch wc) (nextHandle w)
             (mkTimer (clock w + interval) interval) d
             (wf_refetch wc Hwfc) Hts' Hpos);
    [ | rewrite Hck'; cbn [due]; lia | reflexivity ].
  rewrite Hcs', Hlen', Hck', <- app_assoc. reflexivity.
Qed.

(** X7. Without a resolution, [loading] never drops and [error] never
    appears: along any run of calls to [refetch], timer runs and cleanups
    in which no promise settles, [loading] stays true once it is true, and
    [error] stays null once it is null. *)
Theorem no_resolution_keeps_loading (evs : list Event) (w : World) :
  wf w = true ->
  forallb not_settle evs = true ->
  (loading w = true -> loading (fold_left step evs w) = true) /\
  (error w = None -> error (fold_left step evs w) = None).
Proof.
  intros Hwf Hok. split; intros H0.
  - apply (steps_invariant not_settle (fun w => loading w = true));
      try assumption.
    + intros w0 _ _. rewrite fetchData_call_exec. reflexivity.
    + intros w0 _ HP. rewrite (proj1 (proj2 (startInterval_frame w0))). exact HP.
    + intros w0 _ HP. rewrite (proj1 (proj2 (cleanup_frame w0))). exact HP.
    + intros c o w0 Hno. discriminate.
    + apply tick_invariant.
      * intros w0 _ _. rewrite fetchData_call_exec. reflexivity.
      * intros w0 t HP. exact HP.
      * intros w0 l HP. exact HP.
  - apply (steps_invariant not_settle (fun w => error w = None));
      try assumption.
    + intros w0 _ _. rewrite fetchData_call_exec. reflexivity.
    + intros w0 _ HP. rewrite (proj1 (proj2 (proj2 (startInterval_frame w0)))). exact HP.
    + intros w0 _ HP. rewrite (proj1 (proj2 (proj2 (cleanup_frame w0)))). exact HP.
    + intros c o w0 Hno. discriminate.
    + apply tick_invariant.
      * intros w0 _ _. rewrite fetchData_call_exec. reflexivity.
      * intros w0 t HP. exact HP.
      * intros w0 l HP. exact HP.
Qed.

Lemma loading_refetch (w : World) : loading (exec refetch w) = true.
Proof.
  rewrite refetch_exec, (proj1 (proj2 (startInterval_frame _))), fetchData_call_exec.
  reflexivity.
Qed.

(** X8. The component's button issues one request however often it is
    clicked in a row: the first click calls [refetch] if [loading] is
    false, and every further click finds the button disabled. *)
Theorem repeated_clicks_issue_one_request (w : World) (n : nat) :
  click (click w) = click w /\
  Nat.iter (S n) click w = click w /\
  calls (click w) =
  if loading w then calls w
  else calls w ++ [(clock w, length (controllers w))].
Proof.
  assert (Hidem : forall x, click (click x) = click x).
  { intros x. unfold click at 2 3. destruct (loading x) eqn:Hl.
    - unfold click. rewrite Hl. reflexivity.
    - unfold click. rewrite loading_refetch. reflexivity. }
  split; [apply Hidem|]. split.
  - induction n as [|n IH]; [reflexivity|].
    change (Nat.iter (S (S n)) click w) with (click (Nat.iter (S n) click w)).
    rewrite IH. apply Hidem.
  - unfold click. destruct (loading w); [reflexivity|].
    rewrite refetch_exec.
    rewrite (proj1 (proj2 (proj2 (proj2 (startInterval_frame _))))).
    rewrite fetchData_call_exec. reflexivity.
Qed.

End Hook.

Arguments Resolved {T} result.
Arguments Rejected {T} err.
Arguments Refetch {T}.
Arguments Advance {T} d.
Arguments Settle {T} c o.
Arguments Unmount {T}.
Arguments EAbort {T} c.
Arguments ENewAbortController {T} c.
Arguments ESetLoading {T} b.
Arguments ESetError {T} e.
Arguments ESetData {T} d.
Arguments EApiCall {T} c.
Arguments EClearInterval {T} h.
Arguments ESetInterval {T} h ms.
Arguments data {T} w.
Arguments loading {T} w.
Arguments error {T} w.
Arguments intervalRef {T} w.
Arguments abortControllerRef {T} w.
Arguments controllers {T} w.
Arguments timers {T} w.
Arguments clock {T} w.
Arguments pending {T} w.
Arguments calls {T} w.
Arguments exec {T A} m w.
Arguments effects {T A} m w.
Arguments settle {T} c o w.
Arguments advance {T} d w.
Arguments live {T} w.
Arguments wf {T} w.
Arguments settled {T} r.
Arguments click {T} interval w.
Arguments not_settle {T} e.

(** ** The hook under the component

    [ApiComponent] passes its [fetchData] to the hook as [apiCall] and
    renders the hook's [data], [loading] and [error]. *)

(** X9. A failed fetch is shown: when the response is not ok, whatever its
    body, the component shows the error panel with "Failed to fetch data"
    and no data panel, even if one was shown before; when [fetch] or
    [response.json()] rejects with an [Error] other than "AbortError", the
    error panel shows that error's message.  In both cases the loading line
    is gone and the button is enabled. *)
Theorem failed_fetch_is_shown
    (c : Token) (now : N) (body : ApiComponent.Body) (e : JsError)
    (w : World ApiComponent.Payload) :
  c ∈ pending w ->
  name e <> "AbortError"%string ->
  let view f :=
    let w' := settle c (settled (ApiComponent.fetchData now f)) w in
    ApiComponent.render (data w') (loading w') (error w') in
  view (ApiComponent.Response false body) =
    ApiComponent.mkView false "Refetch Now" false
      (Some "Failed to fetch data"%string) None /\
  view (ApiComponent.FetchRejected (ThrownError e)) =
    ApiComponent.mkView false "Refetch Now" false (Some (message e)) None /\
  view (ApiComponent.Response true (ApiComponent.BodyRejected (ThrownError e))) =
    ApiComponent.mkView false "Refetch Now" false (Some (message e)) None.
Proof.
  intros Hin Hname. cbv zeta.
  pose proof (reportable_other e Hname) as Hrep.
  split; [|split].
  - destruct (settle_cells _ c
      (settled (ApiComponent.fetchData now (ApiComponent.Response false body)))
      w Hin) as (Hl & Hd & He).
    rewrite Hl, Hd, He. reflexivity.
  - pose proof (settle_cells _ c
      (settled (ApiComponent.fetchData now
         (ApiComponent.FetchRejected (ThrownError e)))) w Hin) as H.
    cbn [settled ApiComponent.fetchData] in H. cbv zeta in H.
    rewrite Hrep in H. destruct H as (Hl & Hd & He).
    cbn [settled ApiComponent.fetchData]. rewrite Hl, Hd, He. reflexivity.
  - pose proof (settle_cells _ c
      (settled (ApiComponent.fetchData now
         (ApiComponent.Response true
            (ApiComponent.BodyRejected (ThrownError e))))) w Hin) as H.
    cbn [settled ApiComponent.fetchData negb] in H. cbv zeta in H.
    rewrite Hrep in H. destruct H as (Hl & Hd & He).
    cbn [settled ApiComponent.fetchData negb]. rewrite Hl, Hd, He. reflexivity.
Qed.

(** X10. A successful fetch is shown: when the response is ok and its body
    parses, the component shows the data panel with the post's title and
    the time of the fetch, no error panel even if one was shown before, no
    loading line and an enabled button. *)
Theorem fetched_post_is_shown
    (c : Token) (now : N) (title : string) (w : World ApiComponent.Payload) :
  c ∈ pending w ->
  let w' :=
    settle c
      (settled (ApiComponent.fetchData now
         (ApiComponent.Response true (ApiComponent.BodyJson title)))) w in
  ApiComponent.render (data w') (loading w') (error w') =
  ApiComponent.mkView false "Refetch Now" false None (Some (title, now)).
Proof.
  intros Hin. cbv zeta.
  destruct (settle_cells _ c
    (settled (ApiComponent.fetchData now
       (ApiComponent.Response true (ApiComponent.BodyJson title)))) w Hin)
    as (Hl & Hd & He).
  rewrite Hl, Hd, He. reflexivity.
Qed.

(** X11. An aborted fetch changes no panel: when [fetch] or
    [response.json()] rejects with an "AbortError", the component keeps the
    data panel and the error panel it had; only the loading line goes and
    the button is enabled. *)
Theorem aborted_fetch_keeps_panels
    (c : Token) (now : N) (e : JsError) (w : World ApiComponent.Payload) :
  c ∈ pending w ->
  name e = "AbortError"%string ->
  let view f :=
    let w' := settle c (settled (ApiComponent.fetchData now f)) w in
    ApiComponent.render (data w') (loading w') (error w') in
  view (ApiComponent.FetchRejected (ThrownError e)) =
    ApiComponent.render (data w) false (error w) /\
  view (ApiComponent.Response true (ApiComponent.BodyRejected (ThrownError e))) =
    ApiComponent.render (data w) false (error w).
Proof.
  intros Hin Hname. cbv zeta.
  pose proof (reportable_abort e Hname) as Hrep.
  split.
  - pose proof (settle_cells _ c
      (settled (ApiComponent.fetchData now
         (ApiComponent.FetchRejected (ThrownError e)))) w Hin) as H.
    cbn [settled ApiComponent.fetchData] in H. cbv zeta in H.
    rewrite Hrep in H. destruct H as (Hl & Hd & He).
    cbn [settled ApiComponent.fetchData]. rewrite Hl, Hd, He. reflexivity.
  - pose proof (settle_cells _ c
      (settled (ApiComponent.fetchData now
         (ApiComponent.Response true
            (ApiComponent.BodyRejected (ThrownError e))))) w Hin) as H.
    cbn [settled ApiComponent.fetchData negb] in H. cbv zeta in H.
    rewrite Hrep in H. destruct H as (Hl & Hd & He).
    cbn [settled ApiComponent.fetchData negb]. rewrite Hl, Hd, He. reflexivity.
Qed.

(** ** The claims on concrete runs

    The runs below use [nat] for the fetched value and an interval of one
    second.  After [run nat 1000 true [Refetch]] two requests are
    outstanding: request 0, issued by the effect and superseded, and
    request 1, issued by [refetch] and active. *)

(** C1, as stated, fails: request 0 was superseded by request 1, request 1
    has resolved with 2, and request 0 resolving afterwards with 1
    overwrites [data]. *)
Lemma superseded_result_overwrites_newer :
  ~ (forall (evs : list (Event nat)) (c : Token) (o : Outcome nat),
       c ∈ pending (run nat 1000 true evs) ->
       abortControllerRef (run nat 1000 true evs) <> Some c ->
       data (settle c o (run nat 1000 true evs)) = data (run nat 1000 true evs) /\
       error (settle c o (run nat 1000 true evs)) = error (run nat 1000 true evs)).
Proof.
  intros H.
  specialize (H [Refetch; Settle 1%nat (Resolved 2%nat)] 0%nat (Resolved 1%nat)).
  destruct H as [H _].
  - vm_compute. constructor.
  - vm_compute. discriminate.
  - vm_compute in H. discriminate.
Qed.

Lemma resolution_writes_ignore_active_token_witness :
  0%nat ∈ pending (run nat 1000 true [Refetch]) /\
  abortControllerRef (run nat 1000 true [Refetch]) = Some 1%nat /\
  data (settle 0%nat (Resolved 7%nat) (run nat 1000 true [Refetch])) = Some 7%nat.
Proof.
  assert (Hin : 0%nat ∈ pending (run nat 1000 true [Refetch]))
    by (vm_compute; constructor).
  split; [exact Hin|]. split; [reflexivity|].
  pose proof (resolution_writes_ignore_active_token nat 0%nat (Resolved 7%nat)
                None (run nat 1000 true [Refetch]) Hin) as H.
  cbv zeta in H. destruct H as (_ & (Hdata & _) & _). exact Hdata.
Defined.

(** The code does not keep C2: request 0 was superseded by request 1, which
    is active and outstanding; request 0 rejecting with an "AbortError"
    sets [loading] to false all the same. *)
Lemma superseded_abort_clears_loading :
  ~ (forall (evs : list (Event nat)) (c a : Token) (o : Outcome nat),
       c ∈ pending (run nat 1000 true evs) ->
       a ∈ pending (run nat 1000 true evs) ->
       abortControllerRef (run nat 1000 true evs) = Some a ->
       a <> c ->
       loading (settle c o (run nat 1000 true evs)) = true).
Proof.
  intros H.
  specialize (H [Refetch] 0%nat 1%nat
                (Rejected (ThrownError (mkError "AbortError" "Request aborted")))).
  assert (Hl : loading (settle 0%nat
                  (Rejected (ThrownError (mkError "AbortError" "Request aborted")))
                  (run nat 1000 true [Refetch])) = true).
  { apply H.
    - vm_compute. constructor.
    - vm_compute. constructor. constructor.
    - reflexivity.
    - discriminate. }
  vm_compute in Hl. discriminate.
Qed.

(** The failing run of C2: mount with [immediate], then [refetch] while
    request 0 is in flight, then request 0 rejects with the "AbortError" of
    its aborted signal.  Request 1 is active, its signal is not aborted and
    its promise is outstanding, and [loading] is false. *)
Lemma loading_cleared_by_superseded_request_witness :
  0%nat ∈ pending (run nat 1000 true [Refetch]) /\
  abortControllerRef (run nat 1000 true [Refetch]) = Some 1%nat /\
  1%nat ∈ pending (run nat 1000 true [Refetch]) /\
  1%nat <> 0%nat /\
  controllers (run nat 1000 true [Refetch]) = [true; false] /\
  loading (run nat 1000 true [Refetch]) = true /\
  loading (settle 0%nat
             (Rejected (ThrownError (mkError "AbortError" "Request aborted")))
             (run nat 1000 true [Refetch])) = false /\
  1%nat ∈ pending (settle 0%nat
             (Rejected (ThrownError (mkError "AbortError" "Request aborted")))
             (run nat 1000 true [Refetch])).
Proof.
  assert (H0 : 0%nat ∈ pending (run nat 1000 true [Refetch]))
    by (vm_compute; constructor).
  assert (H1 : 1%nat ∈ pending (run nat 1000 true [Refetch]))
    by (vm_compute; constructor; constructor).
  assert (Hne : 1%nat <> 0%nat) by discriminate.
  split; [exact H0|]. split; [reflexivity|]. split; [exact H1|].
  split; [exact Hne|]. split; [reflexivity|]. split; [reflexivity|].
  destruct (proj2
    (loading_cleared_by_superseded_request nat 1000 true [Refetch] 0%nat 1%nat
       (Rejected (ThrownError (mkError "AbortError" "Request aborted"))))
    H0 eq_refl H1 Hne) as (Hl & _ & Hp).
  split; [exact Hl | exact Hp].
Defined.

Lemma cancellation_is_swallowed_witness :
  name (mkError "AbortError" "Request aborted") = "AbortError"%string /\
  error (settle 0%nat
           (Rejected (ThrownError (mkError "AbortError" "Request aborted")))
           (run nat 1000 true [])) = None.
Proof.
  split; [reflexivity|].
  exact (proj2 (proj2
    (cancellation_is_swallowed nat 0%nat (mkError "AbortError" "Request aborted")
       (run nat 1000 true []) eq_refl))).
Defined.

Lemma operation_failure_is_reported_witness :
  name (mkError "Error" "API Error") <> "AbortError"%string /\
  0%nat ∈ pending (run nat 1000 true []) /\
  error (settle 0%nat (Rejected (ThrownError (mkError "Error" "API Error")))
           (run nat 1000 true [])) = Some (mkError "Error" "API Error").
Proof.
  assert (Hname : name (mkError "Error" "API Error") <> "AbortError"%string)
    by (simpl; discriminate).
  assert (Hin : 0%nat ∈ pending (run nat 1000 true []))
    by (vm_compute; constructor).
  split; [exact Hname|]. split; [exact Hin|].
  exact (proj1
    (operation_failure_is_reported nat 0%nat (mkError "Error" "API Error")
       (run nat 1000 true []) Hname Hin)).
Defined.

Lemma non_error_rejection_is_dropped_witness :
  0%nat ∈ pending (run nat 1000 true []) /\
  loading (settle 0%nat (Rejected (ThrownOther "String error"))
             (run nat 1000 true [])) = false.
Proof.
  assert (Hin : 0%nat ∈ pending (run nat 1000 true []))
    by (vm_compute; constructor).
  split; [exact Hin|].
  exact (proj2 (proj2 (proj2
    (non_error_rejection_is_dropped nat 0%nat "String error"
       (run nat 1000 true []) Hin)))).
Defined.

Lemma issuance_preamble_witness :
  wf (run nat 1000 true []) = true /\
  effects (fetchData_call nat) (run nat 1000 true []) =
    [EAbort 0%nat; ENewAbortController 1%nat; ESetLoading true;
     ESetError None; EApiCall 1%nat] /\
  live (exec (fetchData_call nat) (run nat 1000 true [])) = [1%nat].
Proof.
  split; [reflexivity|].
  pose proof (issuance_preamble nat 1000 true (run nat 1000 true []) eq_refl) as H.
  cbv zeta in H.
  destruct H as (Hfx & _ & _ & _ & _ & Hlive & _).
  split; [exact Hfx | exact Hlive].
Defined.

(** A [refetch] 400 ms after mounting: the next timer request comes at
    1400 ms, not at 1000 ms. *)
Lemma refetch_restarts_period_witness :
  0 < 1000 /\
  1000 <= TIMEOUT_MAX /\
  wf (run nat 1000 true [Advance 400]) = true /\
  calls (advance 999 (exec (refetch nat 1000) (run nat 1000 true [Advance 400]))) =
    [(0, 0%nat); (400, 1%nat)] /\
  calls (advance 1000 (exec (refetch nat 1000) (run nat 1000 true [Advance 400]))) =
    [(0, 0%nat); (400, 1%nat); (1400, 2%nat)].
Proof.
  assert (Hpos : 0 < 1000) by lia.
  assert (Hmax : 1000 <= TIMEOUT_MAX) by (unfold TIMEOUT_MAX; lia).
  assert (Hwf : wf (run nat 1000 true [Advance 400]) = true)
    by (vm_compute; reflexivity).
  split; [exact Hpos|]. split; [exact Hmax|]. split; [exact Hwf|].
  pose proof (refetch_restarts_period nat 1000 true
                (run nat 1000 true [Advance 400]) Hpos Hmax Hwf) as H.
  cbv zeta in H.
  destruct H as (_ & Hnow & _ & _ & Hquiet & Hnext & _).
  split.
  - rewrite (Hquiet 999) by lia. rewrite Hnow. vm_compute. reflexivity.
  - rewrite Hnext, Hnow. vm_compute. reflexivity.
Defined.

Lemma cleanup_is_final_and_idempotent_witness :
  wf (run nat 1000 true []) = true /\
  calls (advance 10000 (exec (cleanup nat) (run nat 1000 true []))) = [(0, 0%nat)] /\
  exec (cleanup nat) (exec (cleanup nat) (run nat 1000 true [])) =
  exec (cleanup nat) (run nat 1000 true []).
Proof.
  split; [reflexivity|].
  pose proof (cleanup_is_final_and_idempotent nat 1000 (run nat 1000 true []) eq_refl) as H.
  cbv zeta in H.
  destruct H as (_ & _ & Hsilent & _ & _ & Hidem).
  split; [rewrite Hsilent; reflexivity | exact Hidem].
Defined.

(** The data sequence null, 1, 1 (loading), 2. *)
Lemma data_changes_only_on_settle_witness :
  true = true /\ 0 < 1000 /\
  (data (mount nat 1000 true) = None /\ loading (mount nat 1000 true) = true) /\
  (data (settle 0%nat (Resolved 1%nat) (mount nat 1000 true)) = Some 1%nat /\
   loading (settle 0%nat (Resolved 1%nat) (mount nat 1000 true)) = false) /\
  (data (advance 1000 (settle 0%nat (Resolved 1%nat) (mount nat 1000 true))) =
     Some 1%nat /\
   loading (advance 1000 (settle 0%nat (Resolved 1%nat) (mount nat 1000 true))) =
     true) /\
  (data (settle 1%nat (Resolved 2%nat)
           (advance 1000 (settle 0%nat (Resolved 1%nat) (mount nat 1000 true)))) =
     Some 2%nat /\
   loading (settle 1%nat (Resolved 2%nat)
              (advance 1000 (settle 0%nat (Resolved 1%nat) (mount nat 1000 true)))) =
     false).
Proof.
  assert (Hpos : 0 < 1000) by lia.
  split; [reflexivity|]. split; [exact Hpos|].
  pose proof (data_changes_only_on_settle nat 1000 true (init nat)) as H.
  destruct H as (_ & _ & _ & _ & _ & _ & _ & _ & H).
  exact (H eq_refl Hpos 1%nat 2%nat).
Defined.

Lemma initial_state_witness :
  false = false /\ 0 < 1000 /\ 1000 <= TIMEOUT_MAX /\
  loading (advance 999 (mount nat 1000 false)) = false /\
  calls (advance 999 (mount nat 1000 false)) = [] /\
  calls (advance 1000 (mount nat 1000 false)) = [(1000, 0%nat)].
Proof.
  assert (Hpos : 0 < 1000) by lia.
  assert (Hmax : 1000 <= TIMEOUT_MAX) by (unfold TIMEOUT_MAX; lia).
  assert (Hlt : 999 < 1000) by lia.
  split; [reflexivity|]. split; [exact Hpos|]. split; [exact Hmax|].
  pose proof (initial_state nat 1000 false) as (_ & _ & _ & Hquiet & Hfirst).
  specialize (Hquiet eq_refl Hpos Hmax 999 Hlt).
  specialize (Hfirst eq_refl Hpos Hmax).
  cbv zeta in Hquiet, Hfirst.
  destruct Hquiet as (_ & Hl & _ & Hc & _). destruct Hfirst as (Hf & _).
  split; [exact Hl|]. split; [exact Hc | exact Hf].
Defined.

(** An interval above [TIMEOUT_MAX] makes the timer run every millisecond. *)
Example interval_above_TIMEOUT_MAX_polls_every_millisecond :
  calls (advance 3 (mount nat 2147483648 true)) =
    [(0, 0%nat); (1, 1%nat); (2, 2%nat); (3, 3%nat)].
Proof. vm_compute. reflexivity. Qed.

(** ** The further properties on concrete runs *)

Lemma timer_fires_every_period_witness :
  wf (run nat 1000 true []) = true /\
  timers (run nat 1000 true []) = [(0%nat, mkTimer 1000 1000)] /\
  0 < period (mkTimer 1000 1000) /\
  clock (run nat 1000 true []) < due (mkTimer 1000 1000) /\
  calls (advance 2500 (run nat 1000 true [])) =
    [(0, 0%nat); (1000, 1%nat); (2000, 2%nat)].
Proof.
  assert (Hp : 0 < period (mkTimer 1000 1000)) by (simpl; lia).
  assert (Hlt : clock (run nat 1000 true []) < due (mkTimer 1000 1000))
    by (simpl; lia).
  split; [reflexivity|]. split; [reflexivity|].
  split; [exact Hp|]. split; [exact Hlt|].
  rewrite (timer_fires_every_period nat (run nat 1000 true []) 0%nat
             (mkTimer 1000 1000) 2500 eq_refl eq_refl Hp Hlt).
  vm_compute. reflexivity.
Defined.

Lemma polling_schedule_after_mount_witness :
  0 < 1000 /\
  1000 <= TIMEOUT_MAX /\
  calls (advance 2500 (mount nat 1000 true)) =
    [(0, 0%nat); (1000, 1%nat); (2000, 2%nat)] /\
  calls (advance 2500 (mount nat 1000 false)) =
    [(1000, 0%nat); (2000, 1%nat)].
Proof.
  assert (Hpos : 0 < 1000) by lia.
  assert (Hmax : 1000 <= TIMEOUT_MAX) by (unfold TIMEOUT_MAX; lia).
  split; [exact Hpos|]. split; [exact Hmax|]. split.
  - rewrite (polling_schedule_after_mount nat 1000 true 2500 Hpos Hmax).
    vm_compute. reflexivity.
  - rewrite (polling_schedule_after_mount nat 1000 false 2500 Hpos Hmax).
    vm_compute. reflexivity.
Defined.

Lemma armed_timer_is_ahead_witness :
  0 < 1000 /\
  1000 <= TIMEOUT_MAX /\
  timers (run nat 1000 true [Advance 400; Refetch; Advance 700]) =
    [(1%nat, mkTimer 1400 1000)] /\
  clock (run nat 1000 true [Advance 400; Refetch; Advance 700]) < 1400.
Proof.
  assert (Hpos : 0 < 1000) by lia.
  assert (Hmax : 1000 <= TIMEOUT_MAX) by (unfold TIMEOUT_MAX; lia).
  assert (Hts : timers (run nat 1000 true [Advance 400; Refetch; Advance 700]) =
                [(1%nat, mkTimer 1400 1000)]) by (vm_compute; reflexivity).
  split; [exact Hpos|]. split; [exact Hmax|]. split; [exact Hts|].
  exact (proj1 (proj2
    (armed_timer_is_ahead nat 1000 true [Advance 400; Refetch; Advance 700]
       1%nat (mkTimer 1400 1000) Hpos Hmax Hts))).
Defined.

Lemma superseded_signals_stay_aborted_witness :
  (0, 0%nat) ∈ calls (run nat 1000 true [Refetch]) /\
  abortControllerRef (run nat 1000 true [Refetch]) <> Some 0%nat /\
  controllers (run nat 1000 true ([Refetch] ++ [Advance 1000])) !! 0%nat =
    Some true.
Proof.
  assert (Hin : (0, 0%nat) ∈ calls (run nat 1000 true [Refetch]))
    by (vm_compute; constructor).
  assert (Hne : abortControllerRef (run nat 1000 true [Refetch]) <> Some 0%nat)
    by (vm_compute; discriminate).
  split; [exact Hin|]. split; [exact Hne|].
  exact (proj1
    (superseded_signals_stay_aborted nat 1000 true [Refetch] [Advance 1000]
       0 0%nat Hin) Hne).
Defined.

Lemma refetch_after_cleanup_restarts_polling_witness :
  0 < 1000 /\
  1000 <= TIMEOUT_MAX /\
  wf (run nat 1000 true [Advance 300]) = true /\
  calls (advance 1000
           (exec (refetch nat 1000)
              (exec (cleanup nat) (run nat 1000 true [Advance 300])))) =
    [(0, 0%nat); (300, 1%nat); (1300, 2%nat)].
Proof.
  assert (Hpos : 0 < 1000) by lia.
  assert (Hmax : 1000 <= TIMEOUT_MAX) by (unfold TIMEOUT_MAX; lia).
  assert (Hwf : wf (run nat 1000 true [Advance 300]) = true)
    by (vm_compute; reflexivity).
  split; [exact Hpos|]. split; [exact Hmax|]. split; [exact Hwf|].
  pose proof (refetch_after_cleanup_restarts_polling nat 1000
                (run nat 1000 true [Advance 300]) 1000 Hpos Hmax Hwf) as H.
  cbv zeta in H. destruct H as (_ & _ & H).
  rewrite H. vm_compute. reflexivity.
Defined.

Lemma no_resolution_keeps_loading_witness :
  wf (run nat 1000 true []) = true /\
  forallb not_settle [Advance 3000; Refetch; @Unmount nat] = true /\
  loading (run nat 1000 true []) = true /\
  loading (fold_left (step nat 1000) [Advance 3000; Refetch; Unmount]
             (run nat 1000 true [])) = true.
Proof.
  split; [reflexivity|]. split; [reflexivity|]. split; [reflexivity|].
  exact (proj1
    (no_resolution_keeps_loading nat 1000 [Advance 3000; Refetch; Unmount]
       (run nat 1000 true []) eq_refl eq_refl) eq_refl).
Defined.

Lemma failed_fetch_is_shown_witness :
  0%nat ∈ pending (run ApiComponent.Payload 5000 true []) /\
  name (mkError "TypeError" "Failed to fetch") <> "AbortError"%string /\
  ApiComponent.error_panel
    (ApiComponent.render
       (data (settle 0%nat
          (settled (ApiComponent.fetchData 120
             (ApiComponent.Response false (ApiComponent.BodyJson "ignored"))))
          (run ApiComponent.Payload 5000 true [])))
       (loading (settle 0%nat
          (settled (ApiComponent.fetchData 120
             (ApiComponent.Response false (ApiComponent.BodyJson "ignored"))))
          (run ApiComponent.Payload 5000 true [])))
       (error (settle 0%nat
          (settled (ApiComponent.fetchData 120
             (ApiComponent.Response false (ApiComponent.BodyJson "ignored"))))
          (run ApiComponent.Payload 5000 true [])))) =
    Some "Failed to fetch data"%string.
Proof.
  assert (Hin : 0%nat ∈ pending (run ApiComponent.Payload 5000 true []))
    by (vm_compute; constructor).
  assert (Hname : name (mkError "TypeError" "Failed to fetch") <> "AbortError"%string)
    by (simpl; discriminate).
  split; [exact Hin|]. split; [exact Hname|].
  pose proof (failed_fetch_is_shown 0%nat 120 (ApiComponent.BodyJson "ignored")
                (mkError "TypeError" "Failed to fetch")
                (run ApiComponent.Payload 5000 true []) Hin Hname) as H.
  cbv zeta in H. destruct H as (H & _). rewrite H. reflexivity.
Defined.

Lemma fetched_post_is_shown_witness :
  0%nat ∈ pending (run ApiComponent.Payload 5000 true []) /\
  ApiComponent.data_panel
    (ApiComponent.render
       (data (settle 0%nat
          (settled (ApiComponent.fetchData 120
             (ApiComponent.Response true (ApiComponent.BodyJson "a title"))))
          (run ApiComponent.Payload 5000 true [])))
       (loading (settle 0%nat
          (settled (ApiComponent.fetchData 120
             (ApiComponent.Response true (ApiComponent.BodyJson "a title"))))
          (run ApiComponent.Payload 5000 true [])))
       (error (settle 0%nat
          (settled (ApiComponent.fetchData 120
             (ApiComponent.Response true (ApiComponent.BodyJson "a title"))))
          (run ApiComponent.Payload 5000 true [])))) =
    Some ("a title"%string, 120).
Proof.
  assert (Hin : 0%nat ∈ pending (run ApiComponent.Payload 5000 true []))
    by (vm_compute; constructor).
  split; [exact Hin|].
  pose proof (fetched_post_is_shown 0%nat 120 "a title"
                (run ApiComponent.Payload 5000 true []) Hin) as H.
  cbv zeta in H. rewrite H. reflexivity.
Defined.

Lemma aborted_fetch_keeps_panels_witness :
  0%nat ∈ pending (run ApiComponent.Payload 5000 true []) /\
  name (mkError "AbortError" "The operation was aborted.") = "AbortError"%string /\
  ApiComponent.error_panel
    (ApiComponent.render
       (data (settle 0%nat
          (settled (ApiComponent.fetchData 120
             (ApiComponent.FetchRejected
                (ThrownError (mkError "AbortError" "The operation was aborted.")))))
          (run ApiComponent.Payload 5000 true [])))
       (loading (settle 0%nat
          (settled (ApiComponent.fetchData 120
             (ApiComponent.FetchRejected
                (ThrownError (mkError "AbortError" "The operation was aborted.")))))
          (run ApiComponent.Payload 5000 true [])))
       (error (settle 0%nat
          (settled (ApiComponent.fetchData 120
             (ApiComponent.FetchRejected
                (ThrownError (mkError "AbortError" "The operation was aborted.")))))
          (run ApiComponent.Payload 5000 true [])))) = None.
Proof.
  assert (Hin : 0%nat ∈ pending (run ApiComponent.Payload 5000 true []))
    by (vm_compute; constructor).
  split; [exact Hin|]. split; [reflexivity|].
  pose proof (aborted_fetch_keeps_panels 0%nat 120
                (mkError "AbortError" "The operation was aborted.")
                (run ApiComponent.Payload 5000 true []) Hin eq_refl) as H.
  cbv zeta in H. destruct H as (H & _). rewrite H. reflexivity.
Defined.
